(** * A shallow embedding of the playlist parser of [m3u8_extractor.py]

    Python [str] values are modelled as [string] (ASCII), [int] as [Z],
    [float] values as exact rationals [Q] (the rounding to binary64 is the
    same function on both sides of every comparison made here), dictionaries
    with optional keys as records with [option] fields, and Python
    exceptions as the [Err] case of a small error monad. *)

From Stdlib Require Import Ascii String List Bool ZArith QArith Lia.
From Stdlib Require Import Sorted.
Import ListNotations.
Close Scope Q_scope.
Open Scope string_scope.
Open Scope list_scope.

(** ** Python exceptions and the error monad *)

Inductive exn := ValueError | IndexError.

Inductive result (A : Type) : Type :=
| Ok (a : A)
| Err (e : exn).
Arguments Ok {A} a.
Arguments Err {A} e.

Definition bind {A B} (m : result A) (f : A -> result B) : result B :=
  match m with
  | Ok a => f a
  | Err e => Err e
  end.

Notation "'let*' x ':=' m 'in' f" := (bind m (fun x => f))
  (at level 200, x name, m at level 100, f at level 200).

(** ** Characters and [str] methods *)

Definition dq : ascii := ascii_of_nat 34.
Definition nl : ascii := ascii_of_nat 10.

(** [str.isspace] and the regex class [\s] on ASCII characters:
    tab, line feed, vertical tab, form feed, carriage return, the
    separators 0x1c-0x1f and the space. *)
Definition is_space (c : ascii) : bool :=
  let n := nat_of_ascii c in
  (Nat.leb 9 n && Nat.leb n 13) || (Nat.leb 28 n && Nat.leb n 32).

(** The regex class [\d] on ASCII characters. *)
Definition is_digit (c : ascii) : bool :=
  let n := nat_of_ascii c in Nat.leb 48 n && Nat.leb n 57.

Definition digit_val (c : ascii) : Z := Z.of_nat (nat_of_ascii c - 48).

Definition lower (c : ascii) : ascii :=
  let n := nat_of_ascii c in
  if Nat.leb 65 n && Nat.leb n 90 then ascii_of_nat (n + 32) else c.

(** Case-insensitive character comparison ([re.IGNORECASE] on ASCII). *)
Definition ci (c d : ascii) : bool := Ascii.eqb (lower c) (lower d).

Fixpoint lstrip (s : string) : string :=
  match s with
  | EmptyString => EmptyString
  | String c r => if is_space c then lstrip r else s
  end.

Fixpoint rstrip (s : string) : string :=
  match s with
  | EmptyString => EmptyString
  | String c r =>
      let r' := rstrip r in
      if is_space c && (r' =? "") then EmptyString else String c r'
  end.

(** [s.strip()] *)
Definition strip (s : string) : string := rstrip (lstrip s).

(** [s.startswith(p)] *)
Definition startswith (p s : string) : bool := String.prefix p s.

Fixpoint strip_prefix (p s : string) : option string :=
  match p, s with
  | EmptyString, _ => Some s
  | String a p', String b s' => if Ascii.eqb a b then strip_prefix p' s' else None
  | String _ _, EmptyString => None
  end.

(** [c in s] *)
Fixpoint contains (c : ascii) (s : string) : bool :=
  match s with
  | EmptyString => false
  | String d r => Ascii.eqb c d || contains c r
  end.

(** [s.split(c)] for a one-character separator. *)
Fixpoint split_on (c : ascii) (s : string) : list string :=
  match s with
  | EmptyString => [EmptyString]
  | String d r =>
      if Ascii.eqb d c then EmptyString :: split_on c r
      else match split_on c r with
           | h :: t => String d h :: t
           | [] => [String d EmptyString]
           end
  end.

(** The two parts of [s.split(c, 1)] when [c in s]. *)
Fixpoint split_once (c : ascii) (s : string) : option (string * string) :=
  match s with
  | EmptyString => None
  | String d r =>
      if Ascii.eqb d c then Some (EmptyString, r)
      else match split_once c r with
           | Some (a, b) => Some (String d a, b)
           | None => None
           end
  end.

(** [s.split(c, 1)] *)
Definition split_max1 (c : ascii) (s : string) : list string :=
  match split_once c s with
  | Some (a, b) => [a; b]
  | None => [s]
  end.

(** [xs[k]], raising [IndexError] out of range. *)
Definition py_index {A} (xs : list A) (k : nat) : result A :=
  match nth_error xs k with
  | Some x => Ok x
  | None => Err IndexError
  end.

(** [re]-style span of a character class: the longest prefix in the class
    and the rest. *)
Fixpoint span (p : ascii -> bool) (s : string) : string * string :=
  match s with
  | EmptyString => (EmptyString, EmptyString)
  | String c r =>
      if p c then let (a, b) := span p r in (String c a, b)
      else (EmptyString, s)
  end.

(** ** Number conversions *)

(** Decimal digits with single underscores between digits, as [int()]
    accepts them (ASCII digits only). *)
Fixpoint udigits (acc : Z) (prev_us : bool) (s : string) : option Z :=
  match s with
  | EmptyString => if prev_us then None else Some acc
  | String c r =>
      if is_digit c then udigits (acc * 10 + digit_val c)%Z false r
      else if Ascii.eqb c "_" && negb prev_us then udigits acc true r
      else None
  end.

Definition int_digits (s : string) : option Z :=
  match s with
  | String c r => if is_digit c then udigits (digit_val c) false r else None
  | EmptyString => None
  end.

(** [int(s)] for a base-10 string; [None] is [ValueError]. *)
Definition py_int (s : string) : option Z :=
  match strip s with
  | String c r =>
      if Ascii.eqb c "-" then option_map Z.opp (int_digits r)
      else if Ascii.eqb c "+" then int_digits r
      else int_digits (String c r)
  | EmptyString => None
  end.

Definition py_int_r (s : string) : result Z :=
  match py_int s with
  | Some z => Ok z
  | None => Err ValueError
  end.

Definition digits_Z (s : string) : Z :=
  (fix go (acc : Z) (s : string) : Z :=
     match s with
     | EmptyString => acc
     | String c r => go (acc * 10 + digit_val c)%Z r
     end) 0%Z s.

Definition all_digits (s : string) : bool :=
  (fix go (s : string) : bool :=
     match s with
     | EmptyString => true
     | String c r => is_digit c && go r
     end) s.

(** The exponent part [[eE][+-]?digits] of a float literal. *)
Definition float_exp (s : string) : option Z :=
  match s with
  | EmptyString => Some 0%Z
  | String e r =>
      if ci e "e" then
        match r with
        | String c r' =>
            if Ascii.eqb c "-" then
              if (negb (r' =? "")) && all_digits r' then Some (- digits_Z r')%Z else None
            else if Ascii.eqb c "+" then
              if (negb (r' =? "")) && all_digits r' then Some (digits_Z r') else None
            else if all_digits r then Some (digits_Z r) else None
        | EmptyString => None
        end
      else None
  end.

Definition pow10 (e : Z) : Q :=
  if (e <? 0)%Z then Qinv (inject_Z (10 ^ (- e))) else inject_Z (10 ^ e).

(** An unsigned decimal literal [digits[.digits][exponent]] with at least
    one digit. *)
Definition float_body (s : string) : option Q :=
  let (ip, r) := span is_digit s in
  let '(fp, r') :=
    match r with
    | String c r1 => if Ascii.eqb c "." then span is_digit r1 else (EmptyString, r)
    | EmptyString => (EmptyString, EmptyString)
    end in
  let has_dot := match r with String c _ => Ascii.eqb c "." | _ => false end in
  let rest := if has_dot then r' else r in
  if (ip =? "") && (fp =? "") then None
  else match float_exp rest with
       | Some e =>
           Some (Qred (inject_Z (digits_Z (ip ++ fp)%string)
                       * pow10 (e - Z.of_nat (String.length fp))))
       | None => None
       end.

(** [float(s)] as an exact rational; [None] is [ValueError].  The forms
    [inf], [nan] and digits with underscores are not modelled: the code's
    own calls only pass strings over [0-9.-]. *)
Definition py_float (s : string) : option Q :=
  match strip s with
  | String c r =>
      if Ascii.eqb c "-" then option_map Qopp (float_body r)
      else if Ascii.eqb c "+" then float_body r
      else float_body (String c r)
  | EmptyString => None
  end.

Example py_float_ex1 : py_float "-1.50" = Some (Qred (-3 # 2)).
Proof. reflexivity. Qed.
Example py_float_ex2 : py_float "1.2.3" = None.
Proof. reflexivity. Qed.
Example py_int_ex : py_int " 1_0 " = Some 10%Z /\ py_int "abc" = None.
Proof. split; reflexivity. Qed.
Example strip_ex : strip "  a b  " = "a b".
Proof. reflexivity. Qed.
Example split_ex : split_on ":" "a::b" = ["a"; ""; "b"].
Proof. reflexivity. Qed.

(** ** Regular-expression searches

    [re.search(p, s)] tries the pattern at every position of [s], leftmost
    first.  Each pattern below is written as a matcher at one position; its
    quantifiers are followed by a character outside their class, so greedy
    matching never has more than one way to succeed and the matcher is a
    function. *)

Fixpoint search {A} (f : string -> option A) (s : string) : option A :=
  match f s with
  | Some a => Some a
  | None =>
      match s with
      | EmptyString => None
      | String _ r => search f r
      end
  end.

(** [re.sub(p, '', s)] for a pattern that never matches the empty string;
    the matcher returns the text left after the match. *)
Fixpoint re_sub_fuel (fuel : nat) (m : string -> option string) (s : string) : string :=
  match fuel with
  | O => s
  | S f =>
      match m s with
      | Some rest => re_sub_fuel f m rest
      | None =>
          match s with
          | EmptyString => EmptyString
          | String c r => String c (re_sub_fuel f m r)
          end
      end
  end.

Definition re_sub (m : string -> option string) (s : string) : string :=
  re_sub_fuel (S (String.length s)) m s.

(** [$] without MULTILINE: the end of the string or a final newline. *)
Definition at_end (s : string) : bool :=
  match s with
  | EmptyString => true
  | String c EmptyString => Ascii.eqb c nl
  | _ => false
  end.

(** [:\d{2}(AM|PM)] (case-insensitive): the matched text and the rest. *)
Definition time_after_hour (s : string) : option (string * string) :=
  match s with
  | String col (String d1 (String d2 (String a (String m r)))) =>
      if Ascii.eqb col ":" && is_digit d1 && is_digit d2
         && (ci a "A" || ci a "P") && ci m "M"
      then Some (String col (String d1 (String d2 (String a (String m EmptyString)))), r)
      else None
  | _ => None
  end.

(** [\d{1,2}:\d{2}(AM|PM)] at one position: two hour digits are tried
    first, then one. *)
Definition time_tok_at (s : string) : option (string * string) :=
  match s with
  | String h1 r1 =>
      if is_digit h1 then
        match
          match r1 with
          | String h2 r2 =>
              if is_digit h2 then
                match time_after_hour r2 with
                | Some (t, r) => Some (String h1 (String h2 t), r)
                | None => None
                end
              else None
          | EmptyString => None
          end
        with
        | Some x => Some x
        | None =>
            match time_after_hour r1 with
            | Some (t, r) => Some (String h1 t, r)
            | None => None
            end
        end
      else None
  | EmptyString => None
  end.

(** [\s*\|] at one position. *)
Definition ws_pipe (s : string) : bool :=
  match snd (span is_space s) with
  | String c _ => Ascii.eqb c "|"
  | EmptyString => false
  end.

(** [\d{1,2}:\d{2}(AM|PM)\s*\|] at one position, with both hour widths. *)
Definition event_at (s : string) : option unit :=
  let two :=
    match s with
    | String h1 (String h2 r2) =>
        is_digit h1 && is_digit h2 &&
        match time_after_hour r2 with Some (_, r) => ws_pipe r | None => false end
    | _ => false
    end in
  let one :=
    match s with
    | String h1 r1 =>
        is_digit h1 &&
        match time_after_hour r1 with Some (_, r) => ws_pipe r | None => false end
    | _ => false
    end in
  if two || one then Some tt else None.

(** [is_event_entry] *)
Definition is_event_entry (title : string) : bool :=
  match search event_at title with Some _ => true | None => false end.

(** [\(\d{1,2}/\d{1,2}/\d{2,4}\)] at one position: the group. *)
Definition date_at (s : string) : option string :=
  match s with
  | String lp r0 =>
      if Ascii.eqb lp "(" then
        let (m, r1) := span is_digit r0 in
        match r1 with
        | String s1 r1' =>
            let (d, r2) := span is_digit r1' in
            match r2 with
            | String s2 r2' =>
                let (y, r3) := span is_digit r2' in
                match r3 with
                | String rp _ =>
                    if Ascii.eqb s1 "/" && Ascii.eqb s2 "/" && Ascii.eqb rp ")"
                       && Nat.leb 1 (String.length m) && Nat.leb (String.length m) 2
                       && Nat.leb 1 (String.length d) && Nat.leb (String.length d) 2
                       && Nat.leb 2 (String.length y) && Nat.leb (String.length y) 4
                    then Some (m ++ "/" ++ d ++ "/" ++ y)%string
                    else None
                | EmptyString => None
                end
            | EmptyString => None
            end
        | EmptyString => None
        end
      else None
  | EmptyString => None
  end.

Definition not_rbracket (c : ascii) : bool := negb (Ascii.eqb c "]").

(** [\[([^\]]+)\]$] at one position: the group and the text after the
    match. *)
Definition bracket_at (s : string) : option (string * string) :=
  match s with
  | String lb r =>
      if Ascii.eqb lb "[" then
        let (inner, r') := span not_rbracket r in
        match r' with
        | String rb r'' =>
            if negb (inner =? "") && at_end r'' then Some (inner, r'') else None
        | EmptyString => None
        end
      else None
  | EmptyString => None
  end.

Definition channel_at (s : string) : option string :=
  option_map fst (bracket_at s).

(** [\s*\[[^\]]+\]$] at one position: the text after the match. *)
Definition ws_bracket_at (s : string) : option string :=
  option_map snd (bracket_at (snd (span is_space s))).

(** [\d{1,2}:\d{2}(?:AM|PM)\s*\|?] at one position: the text after it. *)
Definition time_pipe_at (s : string) : option string :=
  match time_tok_at s with
  | Some (_, r) =>
      let r' := snd (span is_space r) in
      match r' with
      | String c r'' => if Ascii.eqb c "|" then Some r'' else Some r'
      | EmptyString => Some r'
      end
  | None => None
  end.

(** ** Decoders *)

Record EventTitle := {
  event_time : option string;
  event_date : option string;
  channel_name : option string;
  event_title : option string
}.

(** [parse_event_title] *)
Definition parse_event_title (title : string) : EventTitle :=
  let time := option_map fst (search time_tok_at title) in
  let date := search date_at title in
  let '(ch, t1) :=
    match split_once "|" title with
    | Some (_, after) =>
        let desc := strip after in
        match search channel_at desc with
        | Some inner => (Some (strip inner), Some (strip (re_sub ws_bracket_at desc)))
        | None => (None, Some desc)
        end
    | None => (None, None)
    end in
  let t :=
    match t1 with
    | Some x => Some x
    | None => Some (strip (re_sub ws_bracket_at (re_sub time_pipe_at title)))
    end in
  {| event_time := time; event_date := date; channel_name := ch; event_title := t |}.

Example parse_event_title_ex1 :
  parse_event_title "01:00AM|Lakers vs Celtics [HD Feed]" =
  {| event_time := Some "01:00AM"; event_date := None;
     channel_name := Some "HD Feed"; event_title := Some "Lakers vs Celtics" |}.
Proof. reflexivity. Qed.

Example parse_event_title_ex2 :
  parse_event_title "01:05am | Finals (09/23/25) [Feed B]" =
  {| event_time := Some "01:05am"; event_date := Some "09/23/25";
     channel_name := Some "Feed B"; event_title := Some "Finals (09/23/25)" |}.
Proof. reflexivity. Qed.

Example parse_event_title_ex3 :
  parse_event_title "Show 1:00PM x [A]" =
  {| event_time := Some "1:00PM"; event_date := None;
     channel_name := None; event_title := Some "Show x" |}.
Proof. reflexivity. Qed.

Example is_event_entry_ex :
  is_event_entry "01:00AM|x" = true /\ is_event_entry "01:00pm  |x" = true /\
  is_event_entry "News Update" = false /\ is_event_entry "01:00AM x | y" = false /\
  is_event_entry "123:00AM|x" = true.
Proof. repeat split; reflexivity. Qed.

(** [KEY=Q([^Q]+)Q] at one position, Q being the double-quote character:
    the group. *)
Definition quoted_attr_at (key : string) (s : string) : option string :=
  match strip_prefix (key ++ String dq EmptyString)%string s with
  | Some r =>
      let (v, r') := span (fun c => negb (Ascii.eqb c dq)) r in
      match r' with
      | String q _ => if negb (v =? "") && Ascii.eqb q dq then Some v else None
      | EmptyString => None
      end
  | None => None
  end.

(** [KEY(CLASS+)] at one position: the group. *)
Definition class_attr_at (key : string) (cls : ascii -> bool) (s : string) : option string :=
  match strip_prefix key s with
  | Some r => let v := fst (span cls r) in if v =? "" then None else Some v
  | None => None
  end.

(** [RESOLUTION=(\d+x\d+)] at one position: the group. *)
Definition resolution_at (s : string) : option string :=
  match strip_prefix "RESOLUTION=" s with
  | Some r =>
      let (w, r1) := span is_digit r in
      match r1 with
      | String x r2 =>
          let h := fst (span is_digit r2) in
          if negb (w =? "") && Ascii.eqb x "x" && negb (h =? "")
          then Some (w ++ "x" ++ h)%string else None
      | EmptyString => None
      end
  | None => None
  end.

Record StreamInfo := {
  bandwidth : option Z;
  resolution : option string;
  codecs : option string
}.

(** [parse_stream_inf] *)
Definition parse_stream_inf (line : string) : StreamInfo :=
  {| bandwidth := option_map digits_Z (search (class_attr_at "BANDWIDTH=" is_digit) line);
     resolution := search resolution_at line;
     codecs := search (quoted_attr_at "CODECS=") line |}.

Record ExtInf := {
  duration : option Q;
  logo : option string;
  group_title : option string;
  title : option string
}.

Definition is_dur_char (c : ascii) : bool :=
  is_digit c || Ascii.eqb c "." || Ascii.eqb c "-".

(** The group of [#EXTINF:([\d.-]+)], the code's duration token. *)
Definition extinf_token (line : string) : option string :=
  search (class_attr_at "#EXTINF:" is_dur_char) line.

(** [parse_extinf]; [float()] on the token may raise. *)
Definition parse_extinf (line : string) : result ExtInf :=
  let* dur :=
    match extinf_token line with
    | Some v =>
        if v =? "-1" then Ok None
        else match py_float v with
             | Some q => Ok (Some q)
             | None => Err ValueError
             end
    | None => Ok None
    end in
  Ok {| duration := dur;
        logo := search (quoted_attr_at "tvg-logo=") line;
        group_title := search (quoted_attr_at "group-title=") line;
        title := match split_once "," line with
                 | Some (_, after) => let t := strip after in
                                      if t =? "" then None else Some t
                 | None => None
                 end |}.

Definition is_dec_char (c : ascii) : bool := is_digit c || Ascii.eqb c ".".

Record DateRange := {
  dr_id : option string;
  start_date : option string;
  end_date : option string;
  dr_duration : option Q
}.

(** [parse_daterange]; [float()] on the duration may raise. *)
Definition parse_daterange (line : string) : result DateRange :=
  let* dur :=
    match search (class_attr_at "DURATION=" is_dec_char) line with
    | Some v => match py_float v with
                | Some q => Ok (Some q)
                | None => Err ValueError
                end
    | None => Ok None
    end in
  Ok {| dr_id := search (quoted_attr_at "ID=") line;
        start_date := search (quoted_attr_at "START-DATE=") line;
        end_date := search (quoted_attr_at "END-DATE=") line;
        dr_duration := dur |}.

Definition quoted (s : string) : string := (String dq s ++ String dq EmptyString)%string.

Example parse_stream_inf_ex :
  parse_stream_inf ("#EXT-X-STREAM-INF:BANDWIDTH=1280000,RESOLUTION=640x360,CODECS="
                    ++ quoted "avc1.4d401e")%string =
  {| bandwidth := Some 1280000%Z; resolution := Some "640x360"; codecs := Some "avc1.4d401e" |}.
Proof. reflexivity. Qed.

Example parse_extinf_ex :
  parse_extinf ("#EXTINF:-1 tvg-logo=" ++ quoted "L" ++ " group-title="
                ++ quoted "G" ++ ",01:00AM|A [B]")%string = Ok
  {| duration := None; logo := Some "L"; group_title := Some "G";
     title := Some "01:00AM|A [B]" |}.
Proof. reflexivity. Qed.

(** ** The playlist model built by [parse_m3u8] *)

Record Segment := {
  seg_info : ExtInf;
  seg_url : string
}.

(** The entries of [result['events']]: the dictionaries built by the
    [#EXTINF] event path (the [ChannelEntry] case) and by the timing
    directives. *)
Inductive Event :=
| ChannelEntry (ev : EventTitle) (url : string) (dur : option Q)
               (lg : option string) (gt : option string)
| ProgramDateTime (timestamp : string) (line_number : nat)
| DateRangeEv (d : DateRange)
| CueOut (dur : option string) (line_number : nat)
| CueIn (line_number : nat).

Record ChannelRef := {
  ref_channel_name : option string;
  ref_url : string;
  ref_logo : option string;
  ref_duration : option Q
}.

Record EventGroup := {
  g_event_title : string;
  g_event_time : option string;
  g_event_date : option string;
  g_category : option string;
  g_channels : list ChannelRef
}.

Record Metadata := {
  version : option string;
  target_duration : option Z;
  media_sequence : option Z
}.

(** A stream dictionary; [s_segments], [s_events] and [s_metadata] are the
    keys [extract_all] adds. *)
Record Stream := {
  s_info : StreamInfo;
  s_url : string;
  s_segments : option (list Segment);
  s_events : option (list Event);
  s_metadata : option Metadata
}.

(** The [result] dictionary ([timestamp] left out: it is the clock).
    [grouped_events] is an association list in insertion order. *)
Record Model := {
  base_url : string;
  streams : list Stream;
  segments : list Segment;
  events : list Event;
  grouped_events : list (string * EventGroup);
  metadata : Metadata
}.

Definition empty_model (base : string) : Model :=
  {| base_url := base; streams := []; segments := []; events := [];
     grouped_events := [];
     metadata := {| version := None; target_duration := None; media_sequence := None |} |}.

Definition set_metadata (m : Model) (md : Metadata) : Model :=
  {| base_url := base_url m; streams := streams m; segments := segments m;
     events := events m; grouped_events := grouped_events m; metadata := md |}.

Definition add_stream (m : Model) (s : Stream) : Model :=
  {| base_url := base_url m; streams := streams m ++ [s]; segments := segments m;
     events := events m; grouped_events := grouped_events m; metadata := metadata m |}.

Definition add_segment (m : Model) (s : Segment) : Model :=
  {| base_url := base_url m; streams := streams m; segments := segments m ++ [s];
     events := events m; grouped_events := grouped_events m; metadata := metadata m |}.

Definition add_event (m : Model) (e : Event) : Model :=
  {| base_url := base_url m; streams := streams m; segments := segments m;
     events := events m ++ [e]; grouped_events := grouped_events m; metadata := metadata m |}.

Definition set_grouped (m : Model) (g : list (string * EventGroup)) : Model :=
  {| base_url := base_url m; streams := streams m; segments := segments m;
     events := events m; grouped_events := g; metadata := metadata m |}.

(** [key in d] and [d[key]] on the association list. *)
Fixpoint lookup (k : string) (g : list (string * EventGroup)) : option EventGroup :=
  match g with
  | [] => None
  | (k', v) :: t => if k =? k' then Some v else lookup k t
  end.

(** [d[key]['channels'].append(r)]. *)
Fixpoint append_channel (k : string) (r : ChannelRef) (g : list (string * EventGroup))
  : list (string * EventGroup) :=
  match g with
  | [] => []
  | (k', v) :: t =>
      if k =? k' then
        (k', {| g_event_title := g_event_title v; g_event_time := g_event_time v;
                g_event_date := g_event_date v; g_category := g_category v;
                g_channels := g_channels v ++ [r] |}) :: t
      else (k', v) :: append_channel k r t
  end.

(** [event_info.get('category')]: no path of the code sets this key, so the
    lookup always yields [None]. *)
Definition entry_category (ev : EventTitle) : option string := None.

(** The grouping step of [parse_m3u8] (source lines 90-106). *)
Definition group_entry (ev : EventTitle) (r : ChannelRef) (g : list (string * EventGroup))
  : list (string * EventGroup) :=
  let key := match event_title ev with Some t => t | None => "Unknown Event" end in
  let g1 :=
    match lookup key g with
    | Some _ => g
    | None => g ++ [(key, {| g_event_title := key; g_event_time := event_time ev;
                             g_event_date := event_date ev;
                             g_category := entry_category ev; g_channels := [] |})]
    end in
  append_channel key r g1.

(** [content.strip().split('\n')] *)
Definition lines_of (content : string) : list string := split_on nl (strip content).

Section Parser.

(** [urllib.parse.urljoin], a library function the parser calls. *)
Variable urljoin : string -> string -> string.

Definition resolve (base u : string) : string :=
  if startswith "http" u then u else urljoin base u.

(** The [#EXTINF] branch once the following line [next_line] exists
    (source lines 75-114). *)
Definition add_extinf (base : string) (m : Model) (info : ExtInf) (next_line : string) : Model :=
  match title info with
  | Some t =>
      if is_event_entry t then
        let ev := parse_event_title t in
        let u := resolve base next_line in
        let r := {| ref_channel_name := channel_name ev; ref_url := u;
                    ref_logo := logo info; ref_duration := duration info |} in
        add_event (set_grouped m (group_entry ev r (grouped_events m)))
                  (ChannelEntry ev u (duration info) (logo info) (group_title info))
      else add_segment m {| seg_info := info; seg_url := resolve base next_line |}
  | None => add_segment m {| seg_info := info; seg_url := resolve base next_line |}
  end.

(** The [while i < len(lines)] loop of [parse_m3u8]: [i] is the index of
    the head of [ls]; a paired directive consumes the following line. *)
Fixpoint scan (base : string) (i : nat) (ls : list string) (m : Model) {struct ls}
  : result Model :=
  match ls with
  | [] => Ok m
  | raw :: rest =>
      let line := strip raw in
      let md := metadata m in
      if startswith "#EXT-X-VERSION" line then
        let* v := py_index (split_on ":" line) 1 in
        scan base (S i) rest
          (set_metadata m {| version := Some v; target_duration := target_duration md;
                             media_sequence := media_sequence md |})
      else if startswith "#EXT-X-TARGETDURATION" line then
        let* v := py_index (split_on ":" line) 1 in
        let* n := py_int_r v in
        scan base (S i) rest
          (set_metadata m {| version := version md; target_duration := Some n;
                             media_sequence := media_sequence md |})
      else if startswith "#EXT-X-MEDIA-SEQUENCE" line then
        let* v := py_index (split_on ":" line) 1 in
        let* n := py_int_r v in
        scan base (S i) rest
          (set_metadata m {| version := version md; target_duration := target_duration md;
                             media_sequence := Some n |})
      else if startswith "#EXT-X-STREAM-INF" line then
        let info := parse_stream_inf line in
        match rest with
        | [] => Ok m
        | nx :: rest' =>
            scan base (S (S i)) rest'
              (add_stream m {| s_info := info; s_url := resolve base (strip nx);
                               s_segments := None; s_events := None; s_metadata := None |})
        end
      else if startswith "#EXTINF" line then
        let* info := parse_extinf line in
        match rest with
        | [] => Ok m
        | nx :: rest' => scan base (S (S i)) rest' (add_extinf base m info (strip nx))
        end
      else if startswith "#EXT-X-PROGRAM-DATE-TIME" line then
        let* pdt := py_index (split_max1 ":" line) 1 in
        scan base (S i) rest (add_event m (ProgramDateTime pdt i))
      else if startswith "#EXT-X-DATERANGE" line then
        let* d := parse_daterange line in
        scan base (S i) rest (add_event m (DateRangeEv d))
      else if startswith "#EXT-X-CUE-OUT" line then
        let d := if contains ":" line
                 then match split_once ":" line with Some (_, b) => Some b | None => None end
                 else None in
        scan base (S i) rest (add_event m (CueOut d i))
      else if startswith "#EXT-X-CUE-IN" line then
        scan base (S i) rest (add_event m (CueIn i))
      else scan base (S i) rest m
  end.

(** [parse_m3u8] *)
Definition parse_m3u8 (content base : string) : result Model :=
  scan base 0 (lines_of content) (empty_model base).

End Parser.

(** ** [extract_all] *)

(** [if stream_content:] / [if not content:] *)
Definition truthy (s : string) : bool := negb (s =? "").

Fixpoint map_r {A B} (f : A -> result B) (l : list A) : result (list B) :=
  match l with
  | [] => Ok []
  | x :: t => let* y := f x in let* ys := map_r f t in Ok (y :: ys)
  end.

Section Extract.

Variable urljoin : string -> string -> string.

(** [fetch_playlist], the network collaborator: [None] on a request error,
    otherwise the response text. *)
Variable fetch : string -> option string.

(** One iteration of the [for stream in result['streams']] loop. *)
Definition resolve_stream (s : Stream) : result Stream :=
  match fetch (s_url s) with
  | Some c =>
      if truthy c then
        let* d := parse_m3u8 urljoin c (s_url s) in
        Ok {| s_info := s_info s; s_url := s_url s;
              s_segments := Some (segments d); s_events := Some (events d);
              s_metadata := Some (metadata d) |}
      else Ok s
  | None => Ok s
  end.

Definition set_streams (m : Model) (ss : list Stream) : Model :=
  {| base_url := base_url m; streams := ss; segments := segments m;
     events := events m; grouped_events := grouped_events m; metadata := metadata m |}.

(** [extract_all]: [inl] is the [{'error': ...}] dictionary. *)
Definition extract_all (url : string) : result (string + Model) :=
  match fetch url with
  | Some content =>
      if truthy content then
        let* r := parse_m3u8 urljoin content url in
        match streams r with
        | [] => Ok (inr r)
        | _ :: _ => let* ss := map_r resolve_stream (streams r) in Ok (inr (set_streams r ss))
        end
      else Ok (inl "Failed to fetch playlist")
  | None => Ok (inl "Failed to fetch playlist")
  end.

End Extract.

(** ** A concrete [urljoin]

    [urljoin(base, url)] returns [url] when [base] is empty and [base] when
    [url] is empty; a fragment-only reference [#...] replaces the fragment
    of [base]; a reference with a [://] scheme part is returned as it is.
    Other references are appended to the base up to its last slash (dot
    segments are not normalised in this model). *)
Definition defrag (s : string) : string :=
  match split_once "#" s with Some (a, _) => a | None => s end.

Fixpoint upto_last_slash (s : string) : string :=
  match s with
  | EmptyString => EmptyString
  | String c r =>
      let r' := upto_last_slash r in
      if (r' =? "") && negb (Ascii.eqb c "/") then EmptyString else String c r'
  end.

Definition py_urljoin (base url : string) : string :=
  if base =? "" then url
  else if url =? "" then base
  else match url with
       | String c _ =>
           if Ascii.eqb c "#" then (defrag base ++ url)%string
           else match String.index 0 "://" url with
                | Some _ => url
                | None => (upto_last_slash base ++ url)%string
                end
       | EmptyString => base
       end.

Definition nlstr : string := String nl EmptyString.

(** Lines joined with newlines, as a playlist body. *)
Definition join_lines (ls : list string) : string := String.concat nlstr ls.

Example py_urljoin_ex :
  py_urljoin "http://h/a/p.m3u8" "s1.m3u8" = "http://h/a/s1.m3u8" /\
  py_urljoin "http://h/a/p.m3u8" "#X" = "http://h/a/p.m3u8#X".
Proof. split; reflexivity. Qed.

Example parse_m3u8_ex :
  match parse_m3u8 py_urljoin
          (join_lines ["#EXTM3U"; "#EXT-X-TARGETDURATION:10"; "#EXTINF:-1,01:00AM|A [F1]";
                       "u1"; "#EXTINF:2.5,01:05AM|A [F2]"; "http://x/u2"; "#EXTINF:3,plain";
                       "u3"; "#EXT-X-CUE-IN"]) "http://h/p.m3u8" with
  | Ok m =>
      List.length (segments m) = 1 /\ List.length (events m) = 3 /\
      List.map fst (grouped_events m) = ["A"] /\
      List.map (fun '(_, g) => (g_event_time g, List.map ref_url (g_channels g)))
               (grouped_events m) = [(Some "01:00AM", ["http://h/u1"; "http://x/u2"])] /\
      target_duration (metadata m) = Some 10%Z
  | Err _ => False
  end.
Proof. vm_compute. repeat split; reflexivity. Qed.

(** ** General lemmas *)

Lemma startswith_app (p s : string) :
  startswith p s = true <-> exists r, s = (p ++ r)%string.
Proof.
  unfold startswith. revert s; induction p as [|a p IH]; intros s; split.
  - intros _. exists s. reflexivity.
  - intros _. destruct s; reflexivity.
  - destruct s as [|b s]; simpl; [discriminate|].
    destruct (ascii_dec a b) as [->|]; [|discriminate].
    intros H. apply IH in H. destruct H as [r ->]. exists r. reflexivity.
  - intros [r ->]. simpl. destruct (ascii_dec a a); [|congruence].
    apply IH. exists r. reflexivity.
Qed.

Definition is_stream_inf_line (raw : string) : bool :=
  startswith "#EXT-X-STREAM-INF" (strip raw).
Definition is_extinf_line (raw : string) : bool :=
  startswith "#EXTINF" (strip raw).

(** The branches of the loop that read one line only. *)
Definition line_step (i : nat) (line : string) (m : Model) : result Model :=
  let md := metadata m in
  if startswith "#EXT-X-VERSION" line then
    let* v := py_index (split_on ":" line) 1 in
    Ok (set_metadata m {| version := Some v; target_duration := target_duration md;
                          media_sequence := media_sequence md |})
  else if startswith "#EXT-X-TARGETDURATION" line then
    let* v := py_index (split_on ":" line) 1 in
    let* n := py_int_r v in
    Ok (set_metadata m {| version := version md; target_duration := Some n;
                          media_sequence := media_sequence md |})
  else if startswith "#EXT-X-MEDIA-SEQUENCE" line then
    let* v := py_index (split_on ":" line) 1 in
    let* n := py_int_r v in
    Ok (set_metadata m {| version := version md; target_duration := target_duration md;
                          media_sequence := Some n |})
  else if startswith "#EXT-X-PROGRAM-DATE-TIME" line then
    let* pdt := py_index (split_max1 ":" line) 1 in
    Ok (add_event m (ProgramDateTime pdt i))
  else if startswith "#EXT-X-DATERANGE" line then
    let* d := parse_daterange line in
    Ok (add_event m (DateRangeEv d))
  else if startswith "#EXT-X-CUE-OUT" line then
    let d := if contains ":" line
             then match split_once ":" line with Some (_, b) => Some b | None => None end
             else None in
    Ok (add_event m (CueOut d i))
  else if startswith "#EXT-X-CUE-IN" line then
    Ok (add_event m (CueIn i))
  else Ok m.

Lemma stream_inf_not_earlier (line : string) :
  startswith "#EXT-X-STREAM-INF" line = true ->
  startswith "#EXT-X-VERSION" line = false /\
  startswith "#EXT-X-TARGETDURATION" line = false /\
  startswith "#EXT-X-MEDIA-SEQUENCE" line = false.
Proof. intros H. apply startswith_app in H as [r ->]. repeat split; reflexivity. Qed.

Lemma extinf_not_earlier (line : string) :
  startswith "#EXTINF" line = true ->
  startswith "#EXT-X-VERSION" line = false /\
  startswith "#EXT-X-TARGETDURATION" line = false /\
  startswith "#EXT-X-MEDIA-SEQUENCE" line = false /\
  startswith "#EXT-X-STREAM-INF" line = false.
Proof. intros H. apply startswith_app in H as [r ->]. repeat split; reflexivity. Qed.

Section ScanLemmas.

Variable urljoin : string -> string -> string.
Variable base : string.

Lemma scan_single (i : nat) (raw : string) (rest : list string) (m : Model) :
  is_stream_inf_line raw = false -> is_extinf_line raw = false ->
  scan urljoin base i (raw :: rest) m =
  let* m' := line_step i (strip raw) m in scan urljoin base (S i) rest m'.
Proof.
  unfold is_stream_inf_line, is_extinf_line. intros Hs He. simpl. unfold line_step.
  destruct (startswith "#EXT-X-VERSION" (strip raw)).
  { simpl. destruct (py_index _ _); reflexivity. }
  destruct (startswith "#EXT-X-TARGETDURATION" (strip raw)).
  { simpl. destruct (py_index _ _) as [v|]; [|reflexivity].
    simpl. destruct (py_int_r v); reflexivity. }
  destruct (startswith "#EXT-X-MEDIA-SEQUENCE" (strip raw)).
  { simpl. destruct (py_index _ _) as [v|]; [|reflexivity].
    simpl. destruct (py_int_r v); reflexivity. }
  rewrite Hs, He.
  destruct (startswith "#EXT-X-PROGRAM-DATE-TIME" (strip raw)).
  { destruct (py_index _ _); reflexivity. }
  destruct (startswith "#EXT-X-DATERANGE" (strip raw)).
  { destruct (parse_daterange _); reflexivity. }
  destruct (startswith "#EXT-X-CUE-OUT" (strip raw)); [reflexivity|].
  destruct (startswith "#EXT-X-CUE-IN" (strip raw)); reflexivity.
Qed.

Lemma scan_stream_inf (i : nat) (raw nx : string) (rest : list string) (m : Model) :
  is_stream_inf_line raw = true ->
  scan urljoin base i (raw :: nx :: rest) m =
  scan urljoin base (S (S i)) rest
    (add_stream m {| s_info := parse_stream_inf (strip raw);
                     s_url := resolve urljoin base (strip nx);
                     s_segments := None; s_events := None; s_metadata := None |}).
Proof.
  unfold is_stream_inf_line. intros H.
  destruct (stream_inf_not_earlier _ H) as (H1 & H2 & H3).
  simpl. rewrite H1, H2, H3, H. reflexivity.
Qed.

Lemma scan_stream_inf_last (i : nat) (raw : string) (m : Model) :
  is_stream_inf_line raw = true -> scan urljoin base i [raw] m = Ok m.
Proof.
  unfold is_stream_inf_line. intros H.
  destruct (stream_inf_not_earlier _ H) as (H1 & H2 & H3).
  simpl. rewrite H1, H2, H3, H. reflexivity.
Qed.

Lemma scan_extinf (i : nat) (raw nx : string) (rest : list string) (m : Model) :
  is_extinf_line raw = true ->
  scan urljoin base i (raw :: nx :: rest) m =
  let* info := parse_extinf (strip raw) in
  scan urljoin base (S (S i)) rest (add_extinf urljoin base m info (strip nx)).
Proof.
  unfold is_extinf_line. intros H.
  destruct (extinf_not_earlier _ H) as (H1 & H2 & H3 & H4).
  simpl. rewrite H1, H2, H3, H4, H. reflexivity.
Qed.

Lemma scan_extinf_last (i : nat) (raw : string) (m : Model) :
  is_extinf_line raw = true ->
  scan urljoin base i [raw] m = let* _ := parse_extinf (strip raw) in Ok m.
Proof.
  unfold is_extinf_line. intros H.
  destruct (extinf_not_earlier _ H) as (H1 & H2 & H3 & H4).
  simpl. rewrite H1, H2, H3, H4, H. destruct (parse_extinf _); reflexivity.
Qed.

Lemma paired_exclusive (raw : string) :
  is_stream_inf_line raw = true -> is_extinf_line raw = false.
Proof.
  unfold is_stream_inf_line, is_extinf_line. intros H.
  apply startswith_app in H as [r ->]. reflexivity.
Qed.

End ScanLemmas.

Definition is_channel (e : Event) : bool :=
  match e with ChannelEntry _ _ _ _ _ => true | _ => false end.

Lemma line_step_shape (i : nat) (line : string) (m m' : Model) :
  line_step i line m = Ok m' ->
  (exists md, m' = set_metadata m md) \/
  (exists e, is_channel e = false /\ m' = add_event m e) \/ m' = m.
Proof.
  unfold line_step.
  destruct (startswith "#EXT-X-VERSION" line).
  { destruct (py_index _ _); simpl; [|discriminate].
    intros H; injection H as <-; left; eexists; reflexivity. }
  destruct (startswith "#EXT-X-TARGETDURATION" line).
  { destruct (py_index _ _); simpl; [|discriminate].
    destruct (py_int_r _); simpl; [|discriminate].
    intros H; injection H as <-; left; eexists; reflexivity. }
  destruct (startswith "#EXT-X-MEDIA-SEQUENCE" line).
  { destruct (py_index _ _); simpl; [|discriminate].
    destruct (py_int_r _); simpl; [|discriminate].
    intros H; injection H as <-; left; eexists; reflexivity. }
  destruct (startswith "#EXT-X-PROGRAM-DATE-TIME" line).
  { destruct (py_index _ _); simpl; [|discriminate].
    intros H; injection H as <-; right; left; eexists; split; [|reflexivity]; reflexivity. }
  destruct (startswith "#EXT-X-DATERANGE" line).
  { destruct (parse_daterange _); simpl; [|discriminate].
    intros H; injection H as <-; right; left; eexists; split; [|reflexivity]; reflexivity. }
  destruct (startswith "#EXT-X-CUE-OUT" line).
  { intros H; injection H as <-; right; left; eexists; split; [|reflexivity]; reflexivity. }
  destruct (startswith "#EXT-X-CUE-IN" line).
  { intros H; injection H as <-; right; left; eexists; split; [|reflexivity]; reflexivity. }
  intros H; injection H as <-; right; right; reflexivity.
Qed.

Lemma bind_ok {A B} (m : result A) (f : A -> result B) (b : B) :
  bind m f = Ok b -> exists a, m = Ok a /\ f a = Ok b.
Proof. destruct m; simpl; [eauto|discriminate]. Qed.

Section ScanInvariant.

Variable urljoin : string -> string -> string.
Variable base : string.
Variable P : Model -> Prop.
Hypothesis P_metadata : forall m md, P m -> P (set_metadata m md).
Hypothesis P_event : forall m e, is_channel e = false -> P m -> P (add_event m e).
Hypothesis P_stream : forall m info u, P m ->
  P (add_stream m {| s_info := info; s_url := u;
                     s_segments := None; s_events := None; s_metadata := None |}).
Hypothesis P_extinf : forall m info nx, P m -> P (add_extinf urljoin base m info nx).

Lemma scan_invariant (ls : list string) (i : nat) (m m' : Model) :
  P m -> scan urljoin base i ls m = Ok m' -> P m'.
Proof.
  remember (List.length ls) as n eqn:Hn. assert (Hle : List.length ls <= n) by lia.
  clear Hn. revert ls i m Hle.
  induction n as [|n IH]; intros ls i m Hle Hm Hs.
  - destruct ls; [injection Hs as <-; exact Hm | simpl in Hle; lia].
  - destruct ls as [|raw rest]; [injection Hs as <-; exact Hm|].
    simpl in Hle.
    destruct (is_stream_inf_line raw) eqn:Es.
    + destruct rest as [|nx rest'].
      * rewrite scan_stream_inf_last in Hs by exact Es. injection Hs as <-. exact Hm.
      * rewrite scan_stream_inf in Hs by exact Es.
        simpl in Hle. exact (IH rest' _ _ ltac:(lia) (P_stream _ _ _ Hm) Hs).
    + destruct (is_extinf_line raw) eqn:Ee.
      * destruct rest as [|nx rest'].
        -- rewrite scan_extinf_last in Hs by exact Ee.
           apply bind_ok in Hs as (? & _ & Hs). injection Hs as <-. exact Hm.
        -- rewrite scan_extinf in Hs by exact Ee.
           apply bind_ok in Hs as (info & _ & Hs).
           simpl in Hle. exact (IH rest' _ _ ltac:(lia) (P_extinf _ _ _ Hm) Hs).
      * rewrite scan_single in Hs by assumption.
        apply bind_ok in Hs as (m1 & Hl & Hs).
        refine (IH rest _ _ ltac:(lia) _ Hs).
        destruct (line_step_shape _ _ _ _ Hl) as [[md ->]|[[e [He ->]]| ->]]; auto.
Qed.

End ScanInvariant.

(** ** Channel counting and grouping *)

Definition sum_channels (g : list (string * EventGroup)) : nat :=
  fold_right (fun kv acc => List.length (g_channels (snd kv)) + acc) 0 g.

Definition count_channel (es : list Event) : nat := List.length (filter is_channel es).

Definition entry_key (ev : EventTitle) : string :=
  match event_title ev with Some t => t | None => "Unknown Event" end.

(** The channel entries of [events] filed under [k], with their [ChannelRef]. *)
Fixpoint entries_for (k : string) (es : list Event) : list (EventTitle * ChannelRef) :=
  match es with
  | [] => []
  | ChannelEntry ev u d lg _ :: t =>
      if k =? entry_key ev
      then (ev, {| ref_channel_name := channel_name ev; ref_url := u;
                   ref_logo := lg; ref_duration := d |}) :: entries_for k t
      else entries_for k t
  | _ :: t => entries_for k t
  end.

(** The group the first entry under [k] seeds, holding every entry's
    reference in order. *)
Definition group_of (k : string) (es : list Event) : option EventGroup :=
  match entries_for k es with
  | [] => None
  | (ev, r) :: rest =>
      Some {| g_event_title := k; g_event_time := event_time ev;
              g_event_date := event_date ev; g_category := entry_category ev;
              g_channels := r :: List.map snd rest |}
  end.

Definition add_ref (r : ChannelRef) (v : EventGroup) : EventGroup :=
  {| g_event_title := g_event_title v; g_event_time := g_event_time v;
     g_event_date := g_event_date v; g_category := g_category v;
     g_channels := g_channels v ++ [r] |}.

Lemma sum_channels_snoc g k v :
  sum_channels (g ++ [(k, v)]) = sum_channels g + List.length (g_channels v).
Proof. induction g as [|[k' v'] g IH]; simpl; [lia|]. rewrite IH. lia. Qed.

Lemma sum_append_channel k r g :
  sum_channels (append_channel k r g) =
  sum_channels g + (match lookup k g with Some _ => 1 | None => 0 end).
Proof.
  induction g as [|[k' v'] g IH]; simpl; [reflexivity|].
  destruct (k =? k'); simpl.
  - rewrite length_app. simpl. lia.
  - rewrite IH. lia.
Qed.

Lemma lookup_snoc k k' v g :
  lookup k (g ++ [(k', v)]) =
  match lookup k g with Some x => Some x | None => if k =? k' then Some v else None end.
Proof.
  induction g as [|[k'' v''] g IH]; simpl; [destruct (k =? k'); reflexivity|].
  destruct (k =? k''); [reflexivity|exact IH].
Qed.

Lemma lookup_append_channel k k' r g :
  lookup k (append_channel k' r g) =
  if k =? k' then option_map (add_ref r) (lookup k g) else lookup k g.
Proof.
  induction g as [|[k'' v''] g IH]; simpl.
  - destruct (k =? k'); reflexivity.
  - destruct (k' =? k'') eqn:E1; simpl.
    + apply String.eqb_eq in E1; subst k''.
      destruct (k =? k'); reflexivity.
    + destruct (k =? k'') eqn:E2.
      * apply String.eqb_eq in E2; subst k''.
        destruct (k =? k') eqn:E3; [|reflexivity].
        apply String.eqb_eq in E3; subst. rewrite String.eqb_refl in E1. discriminate.
      * exact IH.
Qed.

Lemma sum_group_entry ev r g :
  sum_channels (group_entry ev r g) = S (sum_channels g).
Proof.
  unfold group_entry. set (key := match event_title ev with Some t => t | None => _ end).
  destruct (lookup key g) eqn:E.
  - rewrite sum_append_channel, E. lia.
  - rewrite sum_append_channel, lookup_snoc, E, String.eqb_refl, sum_channels_snoc.
    simpl. lia.
Qed.

Lemma count_channel_snoc es e :
  count_channel (es ++ [e]) = count_channel es + (if is_channel e then 1 else 0).
Proof.
  unfold count_channel. rewrite filter_app, length_app. simpl.
  destruct (is_channel e); reflexivity.
Qed.

Lemma entries_for_app k es es' :
  entries_for k (es ++ es') = entries_for k es ++ entries_for k es'.
Proof.
  induction es as [|e es IH]; [reflexivity|].
  destruct e; simpl; try exact IH.
  destruct (k =? entry_key ev); simpl; rewrite IH; reflexivity.
Qed.

Lemma entries_for_not_channel k e :
  is_channel e = false -> entries_for k [e] = [].
Proof. destruct e; simpl; congruence. Qed.

(** The grouping invariant: the group filed under each key is the one
    [group_of] describes. *)
Definition grouping_inv (m : Model) : Prop :=
  forall k, lookup k (grouped_events m) = group_of k (events m).

Lemma grouping_inv_entry (g : list (string * EventGroup)) (es : list Event)
      (ev : EventTitle) (u : string) (d : option Q) (lg gt : option string) :
  (forall k, lookup k g = group_of k es) ->
  forall k,
    lookup k (group_entry ev {| ref_channel_name := channel_name ev; ref_url := u;
                                ref_logo := lg; ref_duration := d |} g) =
    group_of k (es ++ [ChannelEntry ev u d lg gt]).
Proof.
  intros Hg k. unfold group_entry. fold (entry_key ev).
  set (r := {| ref_channel_name := channel_name ev; ref_url := u;
               ref_logo := lg; ref_duration := d |}).
  unfold group_of. rewrite entries_for_app. simpl.
  destruct (k =? entry_key ev) eqn:Ek.
  - apply String.eqb_eq in Ek. subst k.
    specialize (Hg (entry_key ev)). unfold group_of in Hg.
    destruct (lookup (entry_key ev) g) as [v|] eqn:El.
    + rewrite lookup_append_channel, String.eqb_refl, El. simpl.
      destruct (entries_for (entry_key ev) es) as [|[ev0 r0] rest]; [discriminate|].
      injection Hg as ->. simpl. unfold add_ref. simpl. rewrite map_app. reflexivity.
    + rewrite lookup_append_channel, String.eqb_refl, lookup_snoc, El, String.eqb_refl.
      destruct (entries_for (entry_key ev) es) as [|[? ?] ?]; [|discriminate]. reflexivity.
  - rewrite app_nil_r. fold (group_of k es). rewrite <- Hg.
    rewrite lookup_append_channel, Ek.
    destruct (lookup (entry_key ev) g); [reflexivity|].
    rewrite lookup_snoc, Ek. destruct (lookup k g); reflexivity.
Qed.

Lemma scan_grouping_inv urljoin base ls i m m' :
  grouping_inv m -> scan urljoin base i ls m = Ok m' -> grouping_inv m'.
Proof.
  apply scan_invariant; unfold grouping_inv.
  - intros m0 md H k. exact (H k).
  - intros m0 e He H k. simpl. unfold group_of.
    rewrite entries_for_app, entries_for_not_channel, app_nil_r by exact He. exact (H k).
  - intros m0 info u H k. exact (H k).
  - intros m0 info nx H. unfold add_extinf.
    destruct (title info) as [t|]; [destruct (is_event_entry t)|]; simpl.
    + apply grouping_inv_entry. exact H.
    + exact H.
    + exact H.
Qed.

Lemma scan_channel_count urljoin base ls i m m' :
  sum_channels (grouped_events m) = count_channel (events m) ->
  scan urljoin base i ls m = Ok m' ->
  sum_channels (grouped_events m') = count_channel (events m').
Proof.
  apply (scan_invariant urljoin base
           (fun m => sum_channels (grouped_events m) = count_channel (events m))).
  - intros m0 md H. exact H.
  - intros m0 e He H. simpl. rewrite count_channel_snoc, He. lia.
  - intros m0 info u H. exact H.
  - intros m0 info nx H. unfold add_extinf.
    destruct (title info) as [t|]; [destruct (is_event_entry t)|]; simpl; try exact H.
    rewrite sum_group_entry, count_channel_snoc. simpl. lia.
Qed.

(** ** Claims about the grouping of channel entries *)

(** C3: after a successful parse, the group filed under each event title is
    seeded (time, date, category) by the first channel entry with that
    title, in line order, and its channel list holds the references of all
    those entries in order: later entries only append. *)
Theorem parse_m3u8_group_first_writer_wins (urljoin : string -> string -> string)
        (content base : string) (m : Model) :
  parse_m3u8 urljoin content base = Ok m ->
  forall k,
    lookup k (grouped_events m) =
    match entries_for k (events m) with
    | [] => None
    | (ev, r) :: rest =>
        Some {| g_event_title := k; g_event_time := event_time ev;
                g_event_date := event_date ev; g_category := entry_category ev;
                g_channels := r :: List.map snd rest |}
    end.
Proof.
  intros H k. refine (scan_grouping_inv _ _ _ _ _ _ _ H k).
  intros k'. reflexivity.
Qed.

(** C10: after a successful parse, the channel lists of all groups together
    hold exactly as many references as there are channel entries in
    [events]. *)
Theorem parse_m3u8_channel_total (urljoin : string -> string -> string)
        (content base : string) (m : Model) :
  parse_m3u8 urljoin content base = Ok m ->
  sum_channels (grouped_events m) = count_channel (events m).
Proof. intros H. refine (scan_channel_count _ _ _ _ _ _ _ H). reflexivity. Qed.

(** ** Paired directives and the count of entries *)

(** A line starting with [#], the directive lines of the playlist. *)
Definition is_directive (raw : string) : bool := startswith "#" (strip raw).

Definition is_paired (raw : string) : bool := is_stream_inf_line raw || is_extinf_line raw.

(** The number of [#EXTINF] lines directly followed by a URI (non-directive)
    line. *)
Fixpoint extinf_followed_by_uri (ls : list string) : nat :=
  match ls with
  | [] => 0
  | l :: rest =>
      (match rest with
       | nx :: _ => if is_extinf_line l && negb (is_directive nx) then 1 else 0
       | [] => 0
       end) + extinf_followed_by_uri rest
  end.

(** No line directly after a [#EXT-X-STREAM-INF] or [#EXTINF] line is a
    directive. *)
Fixpoint no_directive_after_paired (ls : list string) : bool :=
  match ls with
  | [] => true
  | l :: rest =>
      (match rest with
       | nx :: _ => negb (is_paired l && is_directive nx)
       | [] => true
       end) && no_directive_after_paired rest
  end.

Lemma extinf_is_directive (raw : string) :
  is_extinf_line raw = true -> is_directive raw = true.
Proof.
  unfold is_extinf_line, is_directive. intros H.
  apply startswith_app in H as [r ->]. reflexivity.
Qed.

Definition entry_count (m : Model) : nat :=
  List.length (segments m) + count_channel (events m).

Lemma add_extinf_count urljoin base m info nx :
  entry_count (add_extinf urljoin base m info nx) = S (entry_count m).
Proof.
  unfold entry_count, add_extinf.
  destruct (title info) as [t|]; [destruct (is_event_entry t)|]; simpl;
    rewrite ?length_app, ?count_channel_snoc; simpl; lia.
Qed.

Lemma line_step_count i line m m' :
  line_step i line m = Ok m' -> entry_count m' = entry_count m.
Proof.
  intros H. destruct (line_step_shape _ _ _ _ H) as [[md ->]|[[e [He ->]]| ->]];
    unfold entry_count; simpl; rewrite ?count_channel_snoc, ?He; lia.
Qed.

Lemma no_directive_after_paired_tail l rest :
  no_directive_after_paired (l :: rest) = true -> no_directive_after_paired rest = true.
Proof. simpl. intros H. apply andb_prop in H. tauto. Qed.

Lemma scan_entry_count urljoin base ls i m m' :
  no_directive_after_paired ls = true ->
  scan urljoin base i ls m = Ok m' ->
  entry_count m' = entry_count m + extinf_followed_by_uri ls.
Proof.
  remember (List.length ls) as n eqn:Hn. assert (Hle : List.length ls <= n) by lia.
  clear Hn. revert ls i m Hle.
  induction n as [|n IH]; intros ls i m Hle Hd Hs.
  - destruct ls; [injection Hs as <-; simpl; lia | simpl in Hle; lia].
  - destruct ls as [|raw rest]; [injection Hs as <-; simpl; lia|].
    simpl in Hle.
    destruct (is_stream_inf_line raw) eqn:Es.
    + destruct rest as [|nx rest'].
      * rewrite scan_stream_inf_last in Hs by exact Es. injection Hs as <-. simpl. lia.
      * rewrite scan_stream_inf in Hs by exact Es.
        simpl in Hd. unfold is_paired in Hd. rewrite Es in Hd. simpl in Hd.
        destruct (is_directive nx) eqn:Dn; [discriminate|].
        assert (Ex : is_extinf_line nx = false).
        { destruct (is_extinf_line nx) eqn:E; [|reflexivity].
          apply extinf_is_directive in E. congruence. }
        apply andb_prop in Hd as [_ Hd]. apply no_directive_after_paired_tail in Hd.
        simpl in Hle.
        rewrite (IH rest' _ _ ltac:(lia) Hd Hs).
        simpl. rewrite (paired_exclusive _ Es). simpl.
        destruct rest'; simpl; rewrite ?Ex; simpl; unfold entry_count; simpl; lia.
    + destruct (is_extinf_line raw) eqn:Ee.
      * destruct rest as [|nx rest'].
        -- rewrite scan_extinf_last in Hs by exact Ee.
           apply bind_ok in Hs as (? & _ & Hs). injection Hs as <-. simpl. lia.
        -- rewrite scan_extinf in Hs by exact Ee.
           apply bind_ok in Hs as (info & _ & Hs).
           simpl in Hd. unfold is_paired in Hd. rewrite Es, Ee in Hd. simpl in Hd.
           destruct (is_directive nx) eqn:Dn; [discriminate|].
           assert (Ex : is_extinf_line nx = false).
           { destruct (is_extinf_line nx) eqn:E; [|reflexivity].
             apply extinf_is_directive in E. congruence. }
           apply no_directive_after_paired_tail in Hd.
           simpl in Hle.
           rewrite (IH rest' _ _ ltac:(lia) Hd Hs), add_extinf_count.
           simpl. rewrite Ee, Dn. simpl.
           destruct rest'; simpl; rewrite ?Ex; simpl; lia.
      * rewrite scan_single in Hs by assumption.
        apply bind_ok in Hs as (m1 & Hl & Hs).
        apply no_directive_after_paired_tail in Hd as Hd'.
        rewrite (IH rest _ _ ltac:(lia) Hd' Hs), (line_step_count _ _ _ _ Hl).
        simpl. rewrite Ee. destruct rest; simpl; lia.
Qed.

(** A trailing paired directive adds nothing; only the decoding of a
    trailing [#EXTINF] can raise. *)
Definition trailing_check (d : string) : result unit :=
  if is_extinf_line d then let* _ := parse_extinf (strip d) in Ok tt else Ok tt.

(** The loop pairs every [#EXT-X-STREAM-INF] or [#EXTINF] line it reaches
    with the line after it; [pairs_closed ls] says that no such pairing
    crosses the end of [ls]. *)
Fixpoint pairs_closed (ls : list string) : bool :=
  match ls with
  | [] => true
  | l :: rest =>
      if is_paired l then
        match rest with
        | [] => false
        | _ :: rest' => pairs_closed rest'
        end
      else pairs_closed rest
  end.

Lemma scan_app_closed (urljoin : string -> string -> string) (base : string)
  (ls1 ls2 : list string) (i : nat) (m : Model) :
  pairs_closed ls1 = true ->
  scan urljoin base i (ls1 ++ ls2) m =
  let* m1 := scan urljoin base i ls1 m in
  scan urljoin base (i + List.length ls1) ls2 m1.
Proof.
  remember (List.length ls1) as n eqn:Hn. assert (Hle : List.length ls1 <= n) by lia.
  rewrite Hn. clear Hn. revert ls1 i m Hle.
  induction n as [|n IH]; intros ls1 i m Hle Hc.
  - destruct ls1; [simpl; rewrite Nat.add_0_r; reflexivity | simpl in Hle; lia].
  - destruct ls1 as [|raw rest]; [simpl; rewrite Nat.add_0_r; reflexivity|].
    simpl in Hle. simpl in Hc. unfold is_paired in Hc.
    destruct (is_stream_inf_line raw) eqn:Es.
    + simpl in Hc. destruct rest as [|nx rest']; [discriminate|]. simpl in Hle.
      change ((raw :: nx :: rest') ++ ls2) with (raw :: nx :: (rest' ++ ls2)).
      rewrite !scan_stream_inf by exact Es.
      rewrite IH by (lia || exact Hc). cbn [List.length].
      replace (i + S (S (List.length rest'))) with (S (S i) + List.length rest') by lia.
      reflexivity.
    + destruct (is_extinf_line raw) eqn:Ee; simpl in Hc.
      * destruct rest as [|nx rest']; [discriminate|]. simpl in Hle.
        change ((raw :: nx :: rest') ++ ls2) with (raw :: nx :: (rest' ++ ls2)).
        rewrite !scan_extinf by exact Ee.
        destruct (parse_extinf (strip raw)) as [info|e]; [simpl|reflexivity].
        rewrite IH by (lia || exact Hc). cbn [List.length].
        replace (i + S (S (List.length rest'))) with (S (S i) + List.length rest') by lia.
        reflexivity.
      * change ((raw :: rest) ++ ls2) with (raw :: (rest ++ ls2)).
        rewrite !scan_single by assumption.
        destruct (line_step i (strip raw) m) as [m1|e]; [simpl|reflexivity].
        rewrite IH by (lia || exact Hc). cbn [List.length].
        replace (i + S (List.length rest)) with (S i + List.length rest) by lia.
        reflexivity.
Qed.

Lemma scan_trailing_paired urljoin base ls d i m :
  is_paired d = true -> pairs_closed ls = true ->
  scan urljoin base i (ls ++ [d]) m =
  let* m' := scan urljoin base i ls m in let* _ := trailing_check d in Ok m'.
Proof.
  intros Hd Hc. rewrite scan_app_closed by exact Hc.
  destruct (scan urljoin base i ls m) as [m'|e]; [cbn [bind]|reflexivity].
  unfold trailing_check, is_paired in *.
  destruct (is_stream_inf_line d) eqn:Es.
  - rewrite scan_stream_inf_last by exact Es. rewrite (paired_exclusive _ Es). reflexivity.
  - simpl in Hd. rewrite scan_extinf_last by exact Hd. rewrite Hd.
    destruct (parse_extinf (strip d)); reflexivity.
Qed.

(** ** String lemmas *)

Lemma sapp_assoc (a b c : string) : ((a ++ b) ++ c)%string = (a ++ (b ++ c))%string.
Proof. induction a; simpl; congruence. Qed.

Lemma sapp_nil_r (a : string) : (a ++ "")%string = a.
Proof. induction a; simpl; congruence. Qed.

Definition all_chars (p : ascii -> bool) (s : string) : bool :=
  (fix go (s : string) : bool :=
     match s with
     | EmptyString => true
     | String c r => p c && go r
     end) s.

Lemma span_sound p s a b :
  span p s = (a, b) ->
  s = (a ++ b)%string /\ all_chars p a = true /\
  match b with String c _ => p c = false | EmptyString => True end.
Proof.
  revert a b; induction s as [|c r IH]; intros a b; simpl.
  - intros H; injection H as <- <-. simpl. auto.
  - destruct (p c) eqn:Pc.
    + destruct (span p r) as [a' b'] eqn:E. intros H; injection H as <- <-.
      destruct (IH a' b' eq_refl) as (-> & Ha & Hb). simpl. rewrite Pc, Ha. auto.
    + intros H; injection H as <- <-. simpl. auto.
Qed.

Lemma span_app p a c r :
  all_chars p a = true -> p c = false -> span p (a ++ String c r) = (a, String c r).
Proof.
  induction a as [|x a IH]; simpl; intros Ha Hc.
  - rewrite Hc. reflexivity.
  - apply andb_prop in Ha as [Hx Ha]. rewrite Hx, IH by assumption. reflexivity.
Qed.

Lemma search_sound {A} (f : string -> option A) s a :
  search f s = Some a -> exists pre suf, s = (pre ++ suf)%string /\ f suf = Some a.
Proof.
  induction s as [|c r IH]; simpl.
  - destruct (f "") eqn:E; intros H; [injection H as ->; exists "", ""; auto|discriminate].
  - destruct (f (String c r)) eqn:E.
    + intros H; injection H as ->. exists "", (String c r). auto.
    + intros H. destruct (IH H) as (pre & suf & -> & Hf). exists (String c pre), suf. auto.
Qed.

Lemma search_complete {A} (f : string -> option A) pre suf a :
  f suf = Some a -> exists b, search f (pre ++ suf) = Some b.
Proof.
  induction pre as [|c r IH]; simpl; intros H.
  - destruct suf; simpl; rewrite H; eauto.
  - destruct (f (String c (r ++ suf))); eauto.
Qed.

(** ** C1: malformed numeric directives *)

(** C1: a [#EXT-X-TARGETDURATION] or [#EXT-X-MEDIA-SEQUENCE] directive
    whose value is not an integer, or that has no colon, makes [parse_m3u8]
    raise ([ValueError] from [int()], [IndexError] from [split(':')[1]])
    instead of leaving the field absent; the later lines are not parsed. *)
Theorem parse_m3u8_malformed_numeric_raises (urljoin : string -> string -> string)
        (base : string) :
  parse_m3u8 urljoin (join_lines ["#EXTM3U"; "#EXT-X-TARGETDURATION:abc";
                                  "#EXTINF:10,a"; "seg.ts"]) base = Err ValueError /\
  parse_m3u8 urljoin (join_lines ["#EXTM3U"; "#EXT-X-MEDIA-SEQUENCE:"; "seg.ts"]) base
    = Err ValueError /\
  parse_m3u8 urljoin (join_lines ["#EXTM3U"; "#EXT-X-TARGETDURATION"; "seg.ts"]) base
    = Err IndexError.
Proof. repeat split; reflexivity. Qed.

(** ** C4: entries against [#EXTINF] lines *)

Definition demo_base : string := "http://h/p.m3u8".

(** C4 (as stated, refuted): an [#EXTINF] line followed by a directive
    line still yields an entry, so the count of entries (1 here) differs from
    the number of [#EXTINF] lines followed by a URI line (0 here). *)
Lemma parse_m3u8_entry_count_counterexample :
  exists m,
    parse_m3u8 py_urljoin (join_lines ["#EXTM3U"; "#EXTINF:10,a"; "#EXT-X-ENDLIST"])
               demo_base = Ok m /\
    List.length (segments m) + count_channel (events m) = 1 /\
    extinf_followed_by_uri (lines_of (join_lines ["#EXTM3U"; "#EXTINF:10,a";
                                                  "#EXT-X-ENDLIST"])) = 0.
Proof. eexists. split; [vm_compute; reflexivity|]. split; vm_compute; reflexivity. Qed.

(** C4 (amended): for a playlist that parses without raising and in which no
    line directly after an [#EXT-X-STREAM-INF] or [#EXTINF] line is a
    directive, [len(segments)] plus the number of channel entries in
    [events] equals the number of [#EXTINF] lines followed by a URI line. *)
Theorem parse_m3u8_entry_count (urljoin : string -> string -> string)
        (content base : string) (m : Model) :
  no_directive_after_paired (lines_of content) = true ->
  parse_m3u8 urljoin content base = Ok m ->
  List.length (segments m) + count_channel (events m) =
  extinf_followed_by_uri (lines_of content).
Proof.
  intros Hd Hp. exact (scan_entry_count _ _ _ _ _ _ Hd Hp).
Qed.

Lemma parse_m3u8_entry_count_witness :
  exists m,
    parse_m3u8 py_urljoin (join_lines ["#EXTM3U"; "#EXTINF:10,a"; "a.ts";
                                       "#EXTINF:5,01:00AM|Game [HD]"; "b.ts"]) demo_base
      = Ok m /\
    List.length (segments m) + count_channel (events m) =
    extinf_followed_by_uri (lines_of (join_lines ["#EXTM3U"; "#EXTINF:10,a"; "a.ts";
                                       "#EXTINF:5,01:00AM|Game [HD]"; "b.ts"])).
Proof.
  eexists. split; [vm_compute; reflexivity|].
  apply (parse_m3u8_entry_count py_urljoin
           (join_lines ["#EXTM3U"; "#EXTINF:10,a"; "a.ts";
                        "#EXTINF:5,01:00AM|Game [HD]"; "b.ts"]) demo_base);
    vm_compute; reflexivity.
Defined.

(** ** C5: a paired directive on the last line *)

(** C5 (as stated, refuted): a final [#EXTINF] or [#EXT-X-STREAM-INF] line
    is not recorded at all: no segment, event or stream is added for it. *)
Lemma parse_m3u8_trailing_directive_counterexample :
  (exists m, parse_m3u8 py_urljoin (join_lines ["#EXTM3U"; "#EXTINF:10,foo"]) demo_base
               = Ok m /\ segments m = [] /\ events m = []) /\
  (exists m, parse_m3u8 py_urljoin (join_lines ["#EXTM3U"; "#EXT-X-STREAM-INF:BANDWIDTH=1"])
               demo_base = Ok m /\ streams m = []).
Proof.
  split; eexists; (split; [vm_compute; reflexivity|]); repeat split; reflexivity.
Qed.

(** C5 (amended): when the last line is a [#EXT-X-STREAM-INF] or [#EXTINF]
    directive that the loop reaches as a directive (no pairing of the
    preceding lines takes it as its URI), nothing is recorded for it:
    parsing gives the model of the preceding lines, followed only by the
    decoding of that directive, which adds nothing to the model. *)
Theorem parse_m3u8_trailing_paired_dropped (urljoin : string -> string -> string)
        (content base : string) (ls : list string) (d : string) :
  lines_of content = ls ++ [d] -> is_paired d = true -> pairs_closed ls = true ->
  parse_m3u8 urljoin content base =
  let* m := scan urljoin base 0 ls (empty_model base) in
  let* _ := trailing_check d in Ok m.
Proof.
  intros Hl Hd Hu. unfold parse_m3u8. rewrite Hl.
  exact (scan_trailing_paired _ _ _ _ _ _ Hd Hu).
Qed.

Lemma parse_m3u8_trailing_paired_dropped_witness :
  parse_m3u8 py_urljoin (join_lines ["#EXT-X-STREAM-INF:BANDWIDTH=1"; "#EXTINF:1,a";
                                     "#EXTINF:2,b"]) demo_base =
  let* m := scan py_urljoin demo_base 0 ["#EXT-X-STREAM-INF:BANDWIDTH=1"; "#EXTINF:1,a"]
                 (empty_model demo_base) in
  let* _ := trailing_check "#EXTINF:2,b" in Ok m.
Proof.
  apply parse_m3u8_trailing_paired_dropped; vm_compute; reflexivity.
Defined.

(** ** C9: the line after a paired directive *)




(** ** C2: the event-entry test *)

(** A time token as the specification words it: one or two digits, a colon,
    two digits, then AM or PM in any case. *)
Definition hhmm_ampm (tok : string) : bool :=
  match tok with
  | String h1 (String c (String m1 (String m2 (String a (String mm EmptyString))))) =>
      is_digit h1 && Ascii.eqb c ":" && is_digit m1 && is_digit m2
      && (ci a "A" || ci a "P") && ci mm "M"
  | String h1 (String h2 (String c (String m1 (String m2 (String a (String mm EmptyString)))))) =>
      is_digit h1 && is_digit h2 && Ascii.eqb c ":" && is_digit m1 && is_digit m2
      && (ci a "A" || ci a "P") && ci mm "M"
  | _ => false
  end.

(** The claim's reading: a time token and, anywhere after it, a pipe. *)
Definition claim_event_shape (t : string) : Prop :=
  exists pre tok post, t = (pre ++ tok ++ post)%string /\
    hhmm_ampm tok = true /\ contains "|" post = true.

(** The amended reading: the pipe follows the time token after optional
    whitespace only. *)
Definition event_shape (t : string) : Prop :=
  exists pre tok ws post, t = (pre ++ tok ++ ws ++ String "|" post)%string /\
    hhmm_ampm tok = true /\ all_chars is_space ws = true.

Lemma ws_pipe_spec r :
  ws_pipe r = true <->
  exists ws post, r = (ws ++ String "|" post)%string /\ all_chars is_space ws = true.
Proof.
  unfold ws_pipe. split.
  - destruct (span is_space r) as [a b] eqn:E. simpl.
    destruct (span_sound _ _ _ _ E) as (-> & Ha & _).
    destruct b as [|c post]; [discriminate|].
    intros Hc. apply Ascii.eqb_eq in Hc. subst c. exists a, post. auto.
  - intros (ws & post & -> & Hws). rewrite span_app by (assumption || reflexivity).
    reflexivity.
Qed.

Lemma time_after_hour_spec s t r :
  time_after_hour s = Some (t, r) ->
  exists col d1 d2 a mm,
    s = String col (String d1 (String d2 (String a (String mm r)))) /\
    (Ascii.eqb col ":" && is_digit d1 && is_digit d2 && (ci a "A" || ci a "P") && ci mm "M")
      = true.
Proof.
  destruct s as [|col [|d1 [|d2 [|a [|mm r']]]]]; simpl; try discriminate.
  destruct (Ascii.eqb col ":" && is_digit d1 && is_digit d2 && (ci a "A" || ci a "P")
            && ci mm "M") eqn:E; [|discriminate].
  intros H; injection H as _ <-. exists col, d1, d2, a, mm. auto.
Qed.

Lemma event_at_spec s :
  event_at s = Some tt <->
  exists tok ws post, s = (tok ++ ws ++ String "|" post)%string /\
    hhmm_ampm tok = true /\ all_chars is_space ws = true.
Proof.
  split.
  - unfold event_at. intros H.
    match type of H with
    | (if ?b then _ else _) = _ => destruct b eqn:E; [clear H|discriminate H]
    end.
    apply orb_true_iff in E as [Two|One].
    + destruct s as [|h1 [|h2 r2]]; try discriminate Two.
      apply andb_prop in Two as [Hd Two]. apply andb_prop in Hd as [D1 D2].
      destruct (time_after_hour r2) as [[t r]|] eqn:T; [|discriminate].
      apply ws_pipe_spec in Two as (ws & post & -> & Hws).
      apply time_after_hour_spec in T as (col & d1 & d2 & a & mm & -> & C).
      exists (String h1 (String h2 (String col (String d1 (String d2 (String a
               (String mm EmptyString))))))), ws, post.
      split; [reflexivity|]. split; [|exact Hws]. simpl. rewrite D1, D2. simpl.
      rewrite <- !andb_assoc in C |- *. exact C.
    + destruct s as [|h1 r1]; try discriminate One.
      apply andb_prop in One as [D1 One].
      destruct (time_after_hour r1) as [[t r]|] eqn:T; [|discriminate].
      apply ws_pipe_spec in One as (ws & post & -> & Hws).
      apply time_after_hour_spec in T as (col & d1 & d2 & a & mm & -> & C).
      exists (String h1 (String col (String d1 (String d2 (String a
               (String mm EmptyString)))))), ws, post.
      split; [reflexivity|]. split; [|exact Hws]. simpl. rewrite D1. simpl.
      rewrite <- !andb_assoc in C |- *. exact C.
  - intros (tok & ws & post & -> & Ht & Hws).
    assert (Hp : ws_pipe (ws ++ String "|" post) = true)
      by (apply ws_pipe_spec; eauto).
    destruct tok as [|h1 [|x [|m1 [|m2 [|a [|mm [|y [|z rest]]]]]]]];
      simpl in Ht; try discriminate.
    + (* one hour digit: x is the colon *)
      apply andb_prop in Ht as [Ht Hm]. apply andb_prop in Ht as [Ht Ha].
      apply andb_prop in Ht as [Ht H2]. apply andb_prop in Ht as [Ht H1].
      apply andb_prop in Ht as [D1 Hc].
      apply Ascii.eqb_eq in Hc. subst x.
      unfold event_at. simpl.
      rewrite D1, H1, H2, Ha, Hm. simpl. rewrite Hp.
      destruct (is_digit h1 && false); reflexivity.
    + (* two hour digits *)
      apply andb_prop in Ht as [Ht Hm]. apply andb_prop in Ht as [Ht Ha].
      apply andb_prop in Ht as [Ht H2]. apply andb_prop in Ht as [Ht H1].
      apply andb_prop in Ht as [Ht Hc]. apply andb_prop in Ht as [D1 D2].
      unfold event_at. simpl.
      rewrite D1, D2, Hc, H1, H2, Ha, Hm. simpl. rewrite Hp. reflexivity.
Qed.

(** C2 (as stated, refuted): a title with a time token and a pipe further
    on, separated by other text, is not an event entry. *)
Lemma is_event_entry_claim_counterexample :
  ~ (is_event_entry "01:00AM Lakers | Celtics" = true <->
     claim_event_shape "01:00AM Lakers | Celtics").
Proof.
  intros [_ H].
  assert (Hs : claim_event_shape "01:00AM Lakers | Celtics").
  { exists "", "01:00AM", " Lakers | Celtics". repeat split; reflexivity. }
  apply H in Hs. vm_compute in Hs. discriminate Hs.
Qed.

(** C2 (amended): [is_event_entry] holds exactly when the title contains a
    time token [H[H]:MM] with [AM] or [PM] (any case) followed, after
    optional whitespace only, by a pipe. *)
Theorem is_event_entry_spec (t : string) :
  is_event_entry t = true <-> event_shape t.
Proof.
  unfold is_event_entry. split.
  - destruct (search event_at t) as [u|] eqn:E; [|discriminate]. intros _.
    apply search_sound in E as (pre & suf & -> & Hs). destruct u.
    apply event_at_spec in Hs as (tok & ws & post & -> & Ht & Hw).
    exists pre, tok, ws, post. auto.
  - intros (pre & tok & ws & post & -> & Ht & Hw).
    assert (He : event_at (tok ++ ws ++ String "|" post) = Some tt)
      by (apply event_at_spec; exists tok, ws, post; auto).
    destruct (search_complete _ pre _ _ He) as [b Hb]. rewrite Hb. reflexivity.
Qed.

Lemma is_event_entry_spec_witness :
  is_event_entry "01:00pm |Game" = true <-> event_shape "01:00pm |Game".
Proof. exact (is_event_entry_spec "01:00pm |Game"). Defined.

(** ** Witnesses for the grouping claims *)

Definition demo_grouped : string :=
  join_lines ["#EXTM3U"; "#EXTINF:-1 tvg-logo=x,01:00AM|Finals [Feed A]"; "a.m3u8";
              "#EXTINF:-1,01:05AM|Finals [Feed B]"; "http://cdn/b.m3u8";
              "#EXT-X-CUE-IN"; "#EXTINF:-1,02:00PM|News [N]"; "n.m3u8"].

Lemma parse_m3u8_group_first_writer_wins_witness :
  exists m, parse_m3u8 py_urljoin demo_grouped demo_base = Ok m /\
    lookup "Finals" (grouped_events m) =
    match entries_for "Finals" (events m) with
    | [] => None
    | (ev, r) :: rest =>
        Some {| g_event_title := "Finals"; g_event_time := event_time ev;
                g_event_date := event_date ev; g_category := entry_category ev;
                g_channels := r :: List.map snd rest |}
    end.
Proof.
  eexists. split; [vm_compute; reflexivity|].
  apply (parse_m3u8_group_first_writer_wins py_urljoin demo_grouped demo_base).
  vm_compute; reflexivity.
Defined.

Lemma parse_m3u8_channel_total_witness :
  exists m, parse_m3u8 py_urljoin demo_grouped demo_base = Ok m /\
    sum_channels (grouped_events m) = count_channel (events m).
Proof.
  eexists. split; [vm_compute; reflexivity|].
  apply (parse_m3u8_channel_total py_urljoin demo_grouped demo_base).
  vm_compute; reflexivity.
Defined.

Example demo_grouped_groups :
  match parse_m3u8 py_urljoin demo_grouped demo_base with
  | Ok m => List.map (fun '(k, g) => (k, g_event_time g, List.length (g_channels g)))
                     (grouped_events m)
            = [("Finals", Some "01:00AM", 2); ("News", Some "02:00PM", 1)]
  | Err _ => False
  end.
Proof. vm_compute. reflexivity. Qed.

(** ** C7: the [#EXTINF] duration *)

(** The duration token as the specification words it: the first
    comma-delimited token after the colon. *)
Definition duration_token_spec (line : string) : string :=
  match split_once ":" line with
  | Some (_, after) => match split_once "," after with
                       | Some (tok, _) => tok
                       | None => after
                       end
  | None => ""
  end.

(** C7 (as stated, refuted): the numeric token [1e1] (float value 10) yields
    the duration 1: the code reads only the run of digits, dots and minus
    signs after the colon. *)
Lemma parse_extinf_duration_counterexample :
  exists info, parse_extinf "#EXTINF:1e1,x" = Ok info /\
    duration info = Some (1 # 1)%Q /\
    duration_token_spec "#EXTINF:1e1,x" = "1e1" /\
    py_float "1e1" = Some (10 # 1)%Q.
Proof. eexists. split; [vm_compute; reflexivity|]. repeat split; vm_compute; reflexivity. Qed.

Lemma strip_prefix_app p s : strip_prefix p (p ++ s) = Some s.
Proof. induction p as [|a p IH]; simpl; [reflexivity|]. rewrite Ascii.eqb_refl. exact IH. Qed.

Lemma span_all p a : all_chars p a = true -> span p a = (a, EmptyString).
Proof.
  induction a as [|x a IH]; simpl; [reflexivity|].
  intros H. apply andb_prop in H as [Hx Ha]. rewrite Hx, IH by exact Ha. reflexivity.
Qed.

Lemma extinf_token_run (tok rest : string) :
  tok <> "" -> all_chars is_dur_char tok = true ->
  match rest with String c _ => is_dur_char c = false | EmptyString => True end ->
  extinf_token ("#EXTINF:" ++ tok ++ rest)%string = Some tok.
Proof.
  intros Hne Ht Hr. unfold extinf_token.
  assert (Hc : class_attr_at "#EXTINF:" is_dur_char ("#EXTINF:" ++ tok ++ rest)%string
               = Some tok).
  { unfold class_attr_at. rewrite strip_prefix_app.
    assert (Hs : fst (span is_dur_char (tok ++ rest)) = tok).
    { destruct rest as [|c r].
      - rewrite sapp_nil_r, span_all by exact Ht. reflexivity.
      - rewrite span_app by assumption. reflexivity. }
    rewrite Hs. destruct (tok =? "") eqn:E; [apply String.eqb_eq in E; congruence|].
    reflexivity. }
  simpl. simpl in Hc. rewrite Hc. reflexivity.
Qed.

Lemma strip_prefix_sound p s r : strip_prefix p s = Some r -> s = (p ++ r)%string.
Proof.
  revert s. induction p as [|a p IH]; intros s; simpl.
  - intros H; injection H as <-. reflexivity.
  - destruct s as [|b s]; [discriminate|].
    destruct (Ascii.eqb a b) eqn:E; [|discriminate].
    apply Ascii.eqb_eq in E as ->. intros H. rewrite (IH _ H). reflexivity.
Qed.

(** No [#EXTINF:] in the text is directly followed by a digit, [.] or [-]. *)
Fixpoint no_extinf_run (s : string) : bool :=
  match strip_prefix "#EXTINF:" s with
  | Some (String c _) => negb (is_dur_char c)
  | _ => true
  end &&
  match s with
  | EmptyString => true
  | String _ r => no_extinf_run r
  end.

Lemma no_extinf_run_sound s :
  no_extinf_run s = true ->
  forall pre suf, s = (pre ++ "#EXTINF:" ++ suf)%string ->
    match suf with String c _ => is_dur_char c = false | EmptyString => True end.
Proof.
  induction s as [|x s IH]; intros Hs pre suf H.
  - destruct pre; discriminate.
  - apply andb_prop in Hs as [Hh Ht]. destruct pre as [|y pre].
    + assert (H' : String x s = ("#EXTINF:" ++ suf)%string) by exact H.
      rewrite H', strip_prefix_app in Hh.
      destruct suf as [|c r]; [exact I|]. apply negb_true_iff in Hh. exact Hh.
    + injection H as _ H. exact (IH Ht pre suf H).
Qed.

(** C7 (amended): on a line starting with [#EXTINF:], the duration is read
    from the longest run of digits, [.] and [-] directly after the colon,
    not from the first comma-delimited token: if the run is exactly [-1]
    the duration is absent, and if the run is a valid float the duration is
    its value, the text after the run being ignored.  When no [#EXTINF:] in
    the line is directly followed by such a run, the duration is absent. *)
Theorem parse_extinf_duration (line : string) :
  (forall tok rest,
     line = ("#EXTINF:" ++ tok ++ rest)%string -> tok <> "" ->
     all_chars is_dur_char tok = true ->
     match rest with String c _ => is_dur_char c = false | EmptyString => True end ->
     (tok = "-1" -> exists info, parse_extinf line = Ok info /\ duration info = None) /\
     (forall q, tok <> "-1" -> py_float tok = Some q ->
        exists info, parse_extinf line = Ok info /\ duration info = Some q)) /\
  ((forall pre suf, line = (pre ++ "#EXTINF:" ++ suf)%string ->
      match suf with String c _ => is_dur_char c = false | EmptyString => True end) ->
   exists info, parse_extinf line = Ok info /\ duration info = None).
Proof.
  split.
  - intros tok rest -> Hne Ht Hr.
    pose proof (extinf_token_run tok rest Hne Ht Hr) as Hk.
    unfold parse_extinf. rewrite Hk. split.
    + intros ->. simpl. eexists. split; reflexivity.
    + intros q Hn Hq. destruct (tok =? "-1") eqn:E; [apply String.eqb_eq in E; congruence|].
      rewrite Hq. simpl. eexists. split; reflexivity.
  - intros Hno.
    assert (Hk : extinf_token line = None).
    { unfold extinf_token. destruct (search _ line) as [v|] eqn:E; [|reflexivity].
      destruct (search_sound _ _ _ E) as (pre & suf & Hl & Hc).
      unfold class_attr_at in Hc.
      destruct (strip_prefix "#EXTINF:" suf) as [r|] eqn:Ep; [|discriminate].
      apply strip_prefix_sound in Ep. subst suf.
      specialize (Hno pre r Hl).
      destruct r as [|c r]; [discriminate|].
      simpl in Hc. rewrite Hno in Hc. discriminate. }
    unfold parse_extinf. rewrite Hk. simpl. eexists. split; reflexivity.
Qed.

Lemma parse_extinf_duration_witness :
  (exists info, parse_extinf "#EXTINF:-1 tvg-logo=x,T" = Ok info /\ duration info = None) /\
  (exists info, parse_extinf "#EXTINF:2.5,T" = Ok info /\ duration info = Some (5 # 2)%Q) /\
  (exists info, parse_extinf "#EXTINF:+5,x" = Ok info /\ duration info = None).
Proof.
  split; [|split].
  - refine (proj1 (proj1 (parse_extinf_duration _) "-1" " tvg-logo=x,T"
                     eq_refl _ eq_refl eq_refl) eq_refl).
    discriminate.
  - refine (proj2 (proj1 (parse_extinf_duration _) "2.5" ",T"
                     eq_refl _ eq_refl eq_refl) (5 # 2)%Q _ _);
      [discriminate | discriminate | vm_compute; reflexivity].
  - apply (proj2 (parse_extinf_duration "#EXTINF:+5,x")).
    apply no_extinf_run_sound. vm_compute. reflexivity.
Defined.

(** ** C8: resolution of master playlist variants *)

(** A two-variant master playlist and two fetch collaborators serving it:
    in the first, variant [a] cannot be fetched and variant [b] serves a
    playlist with a malformed target duration; in the second, [a] cannot be
    fetched and [b] answers with an empty body. *)
Definition demo_master : string :=
  join_lines ["#EXTM3U"; "#EXT-X-STREAM-INF:BANDWIDTH=100"; "a.m3u8";
              "#EXT-X-STREAM-INF:BANDWIDTH=200"; "b.m3u8"].

Definition demo_fetch_bad (u : string) : option string :=
  if u =? demo_base then Some demo_master
  else if u =? "http://h/b.m3u8" then Some "#EXT-X-TARGETDURATION:x"
  else None.

Definition demo_fetch_empty (u : string) : option string :=
  if u =? demo_base then Some demo_master
  else if u =? "http://h/b.m3u8" then Some ""
  else None.

Definition fresh_stream (s : Stream) : Prop :=
  s_segments s = None /\ s_events s = None /\ s_metadata s = None.

Lemma parse_m3u8_fresh_streams urljoin content base r :
  parse_m3u8 urljoin content base = Ok r -> Forall fresh_stream (streams r).
Proof.
  unfold parse_m3u8. intros Hs.
  refine (scan_invariant urljoin base (fun m => Forall fresh_stream (streams m))
            _ _ _ _ _ _ _ _ _ Hs); simpl.
  - intros m md H. exact H.
  - intros m e _ H. exact H.
  - intros m info u H. simpl. apply Forall_app. split; [exact H|].
    constructor; [repeat split|constructor].
  - intros m info nx H. unfold add_extinf.
    destruct (title info) as [t|]; [destruct (is_event_entry t)|]; exact H.
  - constructor.
Qed.

Lemma map_r_forall2 {A B} (f : A -> result B) l l' :
  map_r f l = Ok l' -> Forall2 (fun x y => f x = Ok y) l l'.
Proof.
  revert l'. induction l as [|x l IH]; simpl; intros l' H.
  - injection H as <-. constructor.
  - apply bind_ok in H as (y & Hy & H). apply bind_ok in H as (ys & Hys & H).
    injection H as <-. constructor; [exact Hy | exact (IH _ Hys)].
Qed.

Lemma map_r_total {A B} (f : A -> result B) l :
  Forall (fun x => exists y, f x = Ok y) l -> exists l', map_r f l = Ok l'.
Proof.
  induction 1 as [|x l [y Hy] _ [l' Hl']]; simpl; [eexists; reflexivity|].
  rewrite Hy. simpl. rewrite Hl'. simpl. eexists; reflexivity.
Qed.

(** C8 (as stated, refuted): with variant [a] unfetchable, a malformed body
    served for variant [b] makes the whole extraction raise; and a variant
    whose fetch succeeds with an empty body is left unpopulated. *)
Lemma extract_all_partial_failure_counterexample :
  demo_fetch_bad "http://h/a.m3u8" = None /\
  extract_all py_urljoin demo_fetch_bad demo_base = Err ValueError /\
  demo_fetch_empty "http://h/b.m3u8" = Some "" /\
  exists r, extract_all py_urljoin demo_fetch_empty demo_base = Ok (inr r) /\
            List.map s_url (streams r) = ["http://h/a.m3u8"; "http://h/b.m3u8"] /\
            List.map s_segments (streams r) = [None; None].
Proof.
  split; [vm_compute; reflexivity|]. split; [vm_compute; reflexivity|].
  split; [vm_compute; reflexivity|].
  eexists. split; [vm_compute; reflexivity|]. split; vm_compute; reflexivity.
Qed.

(** How a variant [s] of the master playlist comes out of resolution as
    [s']: its attributes and URL are kept; when the fetch fails or returns
    an empty body its segments, events and metadata stay absent; otherwise
    they are those of the variant's own parse, whose streams are dropped
    and never fetched. *)
Definition variant_resolved (urljoin : string -> string -> string)
  (fetch : string -> option string) (s s' : Stream) : Prop :=
  s_info s' = s_info s /\ s_url s' = s_url s /\
  ((fetch (s_url s) = None \/ fetch (s_url s) = Some "") ->
     s_segments s' = None /\ s_events s' = None /\ s_metadata s' = None) /\
  (forall c, fetch (s_url s) = Some c -> c <> "" ->
     exists d, parse_m3u8 urljoin c (s_url s) = Ok d /\
       s_segments s' = Some (segments d) /\ s_events s' = Some (events d) /\
       s_metadata s' = Some (metadata d)).

(** C8 (amended): for a master playlist (non-empty [streams]), extraction
    succeeds whenever every variant body that is fetched non-empty parses
    without raising; and any successful result keeps the top-level fields of
    the master's parse and resolves each variant, in order, as
    [variant_resolved] describes: an unfetchable variant stays unpopulated
    while the others are populated one level deep. *)
Theorem extract_all_partial_failure (urljoin : string -> string -> string)
  (fetch : string -> option string) (url content : string) (r : Model) :
  fetch url = Some content -> content <> "" ->
  parse_m3u8 urljoin content url = Ok r -> streams r <> [] ->
  (Forall (fun s => forall c, fetch (s_url s) = Some c -> c <> "" ->
             exists d, parse_m3u8 urljoin c (s_url s) = Ok d) (streams r) ->
   exists r', extract_all urljoin fetch url = Ok (inr r')) /\
  (forall r', extract_all urljoin fetch url = Ok (inr r') ->
     base_url r' = base_url r /\ segments r' = segments r /\ events r' = events r /\
     grouped_events r' = grouped_events r /\ metadata r' = metadata r /\
     Forall2 (variant_resolved urljoin fetch) (streams r) (streams r')).
Proof.
  intros Hf Hc Hp Hne.
  assert (Ht : truthy content = true).
  { unfold truthy. destruct (content =? "") eqn:E; [apply String.eqb_eq in E; congruence|reflexivity]. }
  unfold extract_all. rewrite Hf, Ht, Hp. simpl.
  destruct (streams r) as [|s0 ss] eqn:Es; [congruence|].
  split.
  - intros Hall. rewrite <- Es in Hall.
    destruct (map_r_total (resolve_stream urljoin fetch) (streams r)) as [l' Hl'].
    + eapply Forall_impl; [|exact Hall]. intros s Hs. unfold resolve_stream.
      destruct (fetch (s_url s)) as [c|] eqn:Ec; [|eexists; reflexivity].
      destruct (truthy c) eqn:Tc; [|eexists; reflexivity].
      destruct (Hs c Ec) as [d Hd].
      { intros ->. discriminate. }
      rewrite Hd. simpl. eexists; reflexivity.
    + rewrite Es in Hl'. rewrite Hl'. simpl. eexists; reflexivity.
  - intros r' H. apply bind_ok in H as (l' & Hl' & H). injection H as <-.
    simpl. repeat split; try reflexivity.
    pose proof (parse_m3u8_fresh_streams _ _ _ _ Hp) as Hfr. rewrite Es in Hfr.
    apply map_r_forall2 in Hl'. rewrite <- Es in Hl', Hfr |- *. clear Es.
    induction Hl' as [|s s' l l' Hs _ IH]; constructor.
    + inversion Hfr as [|? ? [Hg [He Hm]] _]; subst.
      unfold resolve_stream in Hs. unfold variant_resolved.
      destruct (fetch (s_url s)) as [c|] eqn:Ec.
      * destruct (truthy c) eqn:Tc.
        -- apply bind_ok in Hs as (d & Hd & Hs). injection Hs as <-. simpl.
           split; [reflexivity|]. split; [reflexivity|]. split.
           ++ intros [Hx|Hx]; [discriminate|]. injection Hx as ->. discriminate Tc.
           ++ intros c' Hc' _. injection Hc' as <-. exists d. auto.
        -- injection Hs as <-. repeat split; auto.
           intros c' Hc' Hn. injection Hc' as <-. exfalso. apply Hn.
           unfold truthy in Tc. destruct (c =? "") eqn:E; [apply String.eqb_eq; exact E|discriminate].
      * injection Hs as <-. repeat split; auto. intros c' Hc'. discriminate.
    + apply IH. inversion Hfr; assumption.
Qed.

Lemma extract_all_partial_failure_witness :
  exists r, parse_m3u8 py_urljoin demo_master demo_base = Ok r /\
  ((Forall (fun s => forall c, demo_fetch_empty (s_url s) = Some c -> c <> "" ->
              exists d, parse_m3u8 py_urljoin c (s_url s) = Ok d) (streams r) ->
    exists r', extract_all py_urljoin demo_fetch_empty demo_base = Ok (inr r')) /\
   (forall r', extract_all py_urljoin demo_fetch_empty demo_base = Ok (inr r') ->
     base_url r' = base_url r /\ segments r' = segments r /\ events r' = events r /\
     grouped_events r' = grouped_events r /\ metadata r' = metadata r /\
     Forall2 (variant_resolved py_urljoin demo_fetch_empty) (streams r) (streams r'))).
Proof.
  eexists. split; [vm_compute; reflexivity|].
  apply (extract_all_partial_failure py_urljoin demo_fetch_empty demo_base demo_master);
    [vm_compute; reflexivity | discriminate | vm_compute; reflexivity | discriminate].
Defined.

(** ** C6: the fields of [parse_event_title] *)

(** [v] occurs in [s] as a contiguous piece of text. *)
Definition infix (v s : string) : Prop := exists p q, s = (p ++ v ++ q)%string.

Lemma infix_refl s : infix s s.
Proof. exists "", "". simpl. rewrite sapp_nil_r. reflexivity. Qed.

Lemma infix_trans u v w : infix u v -> infix v w -> infix u w.
Proof.
  intros (p1 & q1 & ->) (p2 & q2 & ->).
  exists (p2 ++ p1)%string, (q1 ++ q2)%string. rewrite !sapp_assoc. reflexivity.
Qed.

Lemma infix_app_r u v : infix u (u ++ v).
Proof. exists "", v. reflexivity. Qed.

Lemma infix_app_l u v : infix v (u ++ v).
Proof. exists u, "". rewrite sapp_nil_r. reflexivity. Qed.

Lemma lstrip_suffix s : exists p, s = (p ++ lstrip s)%string.
Proof.
  induction s as [|c r [p Hp]]; simpl; [exists ""; reflexivity|].
  destruct (is_space c); [exists (String c p); simpl; congruence | exists ""; reflexivity].
Qed.

Lemma rstrip_prefix s : exists q, s = (rstrip s ++ q)%string.
Proof.
  induction s as [|c r [q Hq]]; simpl; [exists ""; reflexivity|].
  destruct (is_space c && (rstrip r =? "")) eqn:E.
  - exists (String c r). reflexivity.
  - exists q. simpl. congruence.
Qed.

Lemma strip_infix s : infix (strip s) s.
Proof.
  unfold strip. destruct (lstrip_suffix s) as [p Hp].
  destruct (rstrip_prefix (lstrip s)) as [q Hq].
  exists p, q. rewrite <- Hq. exact Hp.
Qed.

(** [rstrip] never leaves a final newline. *)
Lemma rstrip_no_final_nl s a : rstrip s <> (a ++ String nl "")%string.
Proof.
  revert a. induction s as [|c r IH]; intros a; simpl.
  - destruct a; discriminate.
  - destruct (is_space c && (rstrip r =? "")) eqn:E; [destruct a; discriminate|].
    destruct a as [|x a]; simpl; intros H; injection H as -> Hr.
    + rewrite Hr in E. discriminate E.
    + exact (IH a Hr).
Qed.

Lemma split_once_sound c s a b :
  split_once c s = Some (a, b) -> s = (a ++ String c b)%string.
Proof.
  revert a b. induction s as [|d r IH]; intros a b; simpl; [discriminate|].
  destruct (Ascii.eqb d c) eqn:E.
  - apply Ascii.eqb_eq in E as ->. intros H; injection H as <- <-. reflexivity.
  - destruct (split_once c r) as [[x y]|] eqn:Es; [|discriminate].
    intros H; injection H as <- <-. simpl. f_equal. apply IH. reflexivity.
Qed.

Lemma split_once_found c a b : exists x y, split_once c (a ++ String c b)%string = Some (x, y).
Proof.
  induction a as [|d a (x & y & IH)]; simpl.
  - rewrite Ascii.eqb_refl. eauto.
  - destruct (Ascii.eqb d c); [eauto|]. rewrite IH. eauto.
Qed.

Lemma time_tok_at_sound s tok r :
  time_tok_at s = Some (tok, r) -> s = (tok ++ r)%string /\ tok <> "".
Proof.
  unfold time_tok_at. destruct s as [|h1 r1]; [discriminate|].
  destruct (is_digit h1); [|discriminate].
  assert (Hone : forall t r0, time_after_hour r1 = Some (t, r0) ->
            String h1 r1 = (String h1 t ++ r0)%string).
  { intros t r0 Ht. destruct (time_after_hour_spec _ _ _ Ht) as (col & d1 & d2 & a & mm & -> & _).
    unfold time_after_hour in Ht.
    destruct (_ && _ && _ && _ && _); [injection Ht as <-; reflexivity|discriminate]. }
  destruct r1 as [|h2 r2].
  - destruct (time_after_hour "") as [[t r0]|] eqn:Ht; [|discriminate].
    intros H; injection H as <- <-. split; [apply Hone; first [exact Ht | reflexivity]|discriminate].
  - destruct (is_digit h2).
    + destruct (time_after_hour r2) as [[t r0]|] eqn:Ht2.
      * intros H; injection H as <- <-. split; [|discriminate].
        destruct (time_after_hour_spec _ _ _ Ht2) as (col & d1 & d2 & a & mm & -> & _).
        unfold time_after_hour in Ht2.
        destruct (_ && _ && _ && _ && _); [injection Ht2 as <-; reflexivity|discriminate].
      * destruct (time_after_hour (String h2 r2)) as [[t r0]|] eqn:Ht; [|discriminate].
        intros H; injection H as <- <-. split; [apply Hone; first [exact Ht | reflexivity]|discriminate].
    + destruct (time_after_hour (String h2 r2)) as [[t r0]|] eqn:Ht; [|discriminate].
      intros H; injection H as <- <-. split; [apply Hone; first [exact Ht | reflexivity]|discriminate].
Qed.

Lemma event_at_time_tok s : event_at s <> None -> time_tok_at s <> None.
Proof.
  unfold event_at, time_tok_at. destruct s as [|h1 r1]; [cbn; congruence|].
  destruct (is_digit h1); cbn -[time_after_hour];
    [|destruct r1; cbn -[time_after_hour]; congruence].
  destruct r1 as [|h2 r2].
  - destruct (time_after_hour "") as [[? ?]|]; cbn -[time_after_hour]; congruence.
  - destruct (is_digit h2); cbn -[time_after_hour].
    + destruct (time_after_hour r2) as [[? ?]|]; cbn -[time_after_hour]; [congruence|].
      destruct (time_after_hour (String h2 r2)) as [[? ?]|]; cbn; congruence.
    + destruct (time_after_hour (String h2 r2)) as [[? ?]|]; cbn; congruence.
Qed.

Lemma search_mono {A B} (f : string -> option A) (g : string -> option B) s :
  (forall x, f x <> None -> g x <> None) -> search f s <> None -> search g s <> None.
Proof.
  intros Hfg. induction s as [|c r IH]; simpl.
  - destruct (f "") eqn:Ef; [|congruence]. intros _.
    destruct (g "") eqn:Eg; [congruence|]. exfalso. apply (Hfg ""); congruence.
  - destruct (f (String c r)) eqn:Ef.
    + intros _. destruct (g (String c r)) eqn:Eg; [congruence|].
      exfalso. apply (Hfg (String c r)); congruence.
    + intros H. destruct (g (String c r)); [congruence|]. exact (IH H).
Qed.

Lemma ascii_eqb_true a b : Ascii.eqb a b = true -> a = b.
Proof. apply Ascii.eqb_eq. Qed.

Lemma date_at_sound s v : date_at s = Some v -> v <> "" /\ infix v s.
Proof.
  unfold date_at. destruct s as [|lp r0]; [discriminate|].
  destruct (Ascii.eqb lp "(") eqn:Elp; [|discriminate].
  destruct (span is_digit r0) as [m r1] eqn:E1.
  destruct r1 as [|s1 r1']; [discriminate|].
  destruct (span is_digit r1') as [d r2] eqn:E2.
  destruct r2 as [|s2 r2']; [discriminate|].
  destruct (span is_digit r2') as [y r3] eqn:E3.
  destruct r3 as [|rp r3']; [discriminate|].
  destruct (Ascii.eqb s1 "/") eqn:Es1; [|discriminate].
  destruct (Ascii.eqb s2 "/") eqn:Es2; [|discriminate].
  simpl. destruct (_ && _ && _ && _ && _ && _ && _); [|discriminate].
  intros H; injection H as <-.
  apply ascii_eqb_true in Es1 as ->. apply ascii_eqb_true in Es2 as ->.
  destruct (span_sound _ _ _ _ E1) as (-> & _).
  destruct (span_sound _ _ _ _ E2) as (-> & _).
  destruct (span_sound _ _ _ _ E3) as (-> & _).
  split; [destruct m; discriminate|].
  exists (String lp ""), (String rp r3'). simpl.
  repeat (rewrite sapp_assoc; simpl). reflexivity.
Qed.

Lemma bracket_at_sound s inner r :
  bracket_at s = Some (inner, r) ->
  s = String "[" (inner ++ String "]" r)%string /\ at_end r = true.
Proof.
  unfold bracket_at. destruct s as [|lb s']; [discriminate|].
  destruct (Ascii.eqb lb "[") eqn:Elb; [|discriminate].
  destruct (span not_rbracket s') as [i r'] eqn:E.
  destruct r' as [|rb r'']; [discriminate|].
  destruct (negb (i =? "") && at_end r'') eqn:C; [|discriminate].
  intros H; injection H as <- <-.
  destruct (span_sound _ _ _ _ E) as (-> & _ & Hrb).
  unfold not_rbracket in Hrb. apply negb_false_iff, ascii_eqb_true in Hrb as ->.
  apply ascii_eqb_true in Elb as ->. apply andb_prop in C as [_ C]. auto.
Qed.

Lemma channel_at_sound s v : channel_at s = Some v -> infix v s.
Proof.
  unfold channel_at. destruct (bracket_at s) as [[i r]|] eqn:E; [|discriminate].
  simpl. intros H; injection H as <-.
  destruct (bracket_at_sound _ _ _ E) as (-> & _).
  exists (String "[" ""), (String "]" r). reflexivity.
Qed.

Lemma ws_bracket_at_sound s rest :
  ws_bracket_at s = Some rest -> exists mid, s = (mid ++ rest)%string /\ at_end rest = true.
Proof.
  unfold ws_bracket_at. destruct (span is_space s) as [ws x] eqn:Ews. simpl.
  destruct (bracket_at x) as [[i r]|] eqn:E; [|discriminate].
  simpl. intros H; injection H as <-.
  destruct (bracket_at_sound _ _ _ E) as (-> & Hend).
  destruct (span_sound _ _ _ _ Ews) as (-> & _).
  exists (ws ++ String "[" (i ++ String "]" ""))%string. split; [|exact Hend].
  rewrite !sapp_assoc. simpl. rewrite sapp_assoc. reflexivity.
Qed.

Lemma re_sub_fuel_empty f : re_sub_fuel f ws_bracket_at "" = "".
Proof. destruct f; reflexivity. Qed.

(** Deleting a trailing bracket from text without a final newline leaves a
    prefix of it. *)
Lemma re_sub_ws_bracket_prefix f s :
  (forall a, s <> (a ++ String nl "")%string) ->
  exists q, s = (re_sub_fuel f ws_bracket_at s ++ q)%string.
Proof.
  revert s. induction f as [|f IH]; intros s Hs; simpl; [exists ""; symmetry; apply sapp_nil_r|].
  destruct (ws_bracket_at s) as [rest|] eqn:E.
  - destruct (ws_bracket_at_sound _ _ E) as (mid & Hmid & Hend).
    destruct rest as [|c [|c' r]]; [| |discriminate].
    + rewrite re_sub_fuel_empty. exists s. reflexivity.
    + apply ascii_eqb_true in Hend as ->. exfalso. exact (Hs mid Hmid).
  - destruct s as [|c r]; [exists ""; reflexivity|].
    destruct (IH r) as [q Hq].
    + intros a Ha. apply (Hs (String c a)). rewrite Ha. reflexivity.
    + exists q. simpl. congruence.
Qed.

Lemma strip_re_sub_infix after :
  infix (strip (re_sub ws_bracket_at (strip after))) after.
Proof.
  apply infix_trans with (re_sub ws_bracket_at (strip after)); [apply strip_infix|].
  apply infix_trans with (strip after); [|apply strip_infix].
  destruct (re_sub_ws_bracket_prefix (S (String.length (strip after))) (strip after)) as [q Hq].
  - unfold strip. apply rstrip_no_final_nl.
  - exists "", q. exact Hq.
Qed.

Lemma parse_event_title_eq t pre after :
  split_once "|" t = Some (pre, after) ->
  parse_event_title t =
  {| event_time := option_map fst (search time_tok_at t);
     event_date := search date_at t;
     channel_name := option_map strip (search channel_at (strip after));
     event_title := Some (match search channel_at (strip after) with
                          | Some _ => strip (re_sub ws_bracket_at (strip after))
                          | None => strip after
                          end) |}.
Proof.
  intros H. unfold parse_event_title. rewrite H.
  destruct (search channel_at (strip after)); reflexivity.
Qed.

(** A time token as the specification describes it: one or two digits, a
    colon, two digits, then [AM] or [PM] in any letter case. *)
Definition time_suffix_ok (s : string) : bool :=
  match s with
  | String col (String d1 (String d2 (String a (String mm EmptyString)))) =>
      Ascii.eqb col ":" && is_digit d1 && is_digit d2 && (ci a "A" || ci a "P") && ci mm "M"
  | _ => false
  end.

Definition is_time_token (v : string) : bool :=
  match v with
  | String h1 r =>
      is_digit h1 &&
      (time_suffix_ok r ||
       match r with String h2 r' => is_digit h2 && time_suffix_ok r' | EmptyString => false end)
  | EmptyString => false
  end.

Lemma time_after_hour_token s t r : time_after_hour s = Some (t, r) -> time_suffix_ok t = true.
Proof.
  intros H. destruct (time_after_hour_spec _ _ _ H) as (col & d1 & d2 & a & mm & -> & E).
  unfold time_after_hour in H. rewrite E in H. injection H as <-. exact E.
Qed.

Lemma time_tok_at_token s tk r : time_tok_at s = Some (tk, r) -> is_time_token tk = true.
Proof.
  unfold time_tok_at. destruct s as [|h1 r1]; [discriminate|].
  destruct (is_digit h1) eqn:Eh1; [|discriminate].
  assert (Hone : forall t r0, time_after_hour r1 = Some (t, r0) ->
                 is_time_token (String h1 t) = true).
  { intros t r0 Ht.
    change (is_time_token (String h1 t)) with
      (is_digit h1 && (time_suffix_ok t ||
        match t with String h2 r' => is_digit h2 && time_suffix_ok r' | EmptyString => false end)).
    rewrite Eh1, (time_after_hour_token _ _ _ Ht). reflexivity. }
  destruct r1 as [|h2 r2].
  - cbn. discriminate.
  - destruct (is_digit h2) eqn:Eh2.
    + destruct (time_after_hour r2) as [[t r0]|] eqn:Ht2.
      * intros H; injection H as <- _.
        change (is_time_token (String h1 (String h2 t))) with
          (is_digit h1 && (time_suffix_ok (String h2 t) || (is_digit h2 && time_suffix_ok t))).
        rewrite Eh1, Eh2, (time_after_hour_token _ _ _ Ht2), orb_true_r. reflexivity.
      * destruct (time_after_hour (String h2 r2)) as [[t r0]|] eqn:Ht; [|discriminate].
        intros H; injection H as <- _. exact (Hone _ _ eq_refl).
    + destruct (time_after_hour (String h2 r2)) as [[t r0]|] eqn:Ht; [|discriminate].
      intros H; injection H as <- _. exact (Hone _ _ eq_refl).
Qed.

Lemma bracket_at_inner s inner r :
  bracket_at s = Some (inner, r) -> inner <> "" /\ all_chars not_rbracket inner = true.
Proof.
  unfold bracket_at. destruct s as [|lb s']; [discriminate|].
  destruct (Ascii.eqb lb "["); [|discriminate].
  destruct (span not_rbracket s') as [i r'] eqn:E.
  destruct r' as [|rb r'']; [discriminate|].
  destruct (negb (i =? "") && at_end r'') eqn:C; [|discriminate].
  intros H; injection H as <- <-. apply andb_prop in C as [C _].
  apply negb_true_iff, String.eqb_neq in C. split; [exact C|].
  apply (span_sound _ _ _ _ E).
Qed.

(** In a text without a final newline, the group [search channel_at] finds
    is the content of a bracket that ends the text. *)
Lemma search_channel_trailing s v :
  (forall a, s <> (a ++ String nl "")%string) ->
  search channel_at s = Some v ->
  exists p, s = (p ++ String "[" (v ++ "]"))%string /\ v <> "" /\
            all_chars not_rbracket v = true.
Proof.
  intros Hnl Hs. destruct (search_sound _ _ _ Hs) as (pre & suf & -> & Hc).
  unfold channel_at in Hc. destruct (bracket_at suf) as [[i r]|] eqn:Eb; [|discriminate].
  injection Hc as <-. destruct (bracket_at_inner _ _ _ Eb) as [Hne Hall].
  destruct (bracket_at_sound _ _ _ Eb) as (-> & Hend).
  destruct r as [|c [|c' r']]; [|apply ascii_eqb_true in Hend as ->|discriminate].
  - exists pre. auto.
  - exfalso. apply (Hnl (pre ++ String "[" (i ++ "]"))%string).
    rewrite !sapp_assoc. simpl. rewrite sapp_assoc. reflexivity.
Qed.

(** C6 (as stated, refuted): titles accepted by the event grammar whose
    text after the pipe is empty, or whose trailing bracket holds only
    blanks, get an empty event title, and in the second case an empty channel
    name. *)
Lemma parse_event_title_fields_counterexample :
  is_event_entry "01:00AM|" = true /\
  parse_event_title "01:00AM|" =
    {| event_time := Some "01:00AM"; event_date := None;
       channel_name := None; event_title := Some "" |} /\
  is_event_entry "01:00AM| [ ]" = true /\
  parse_event_title "01:00AM| [ ]" =
    {| event_time := Some "01:00AM"; event_date := None;
       channel_name := Some ""; event_title := Some "" |}.
Proof. repeat split; vm_compute; reflexivity. Qed.

(** C6 (amended): for a title accepted by the event grammar, the time is
    always present: a time token (one or two digits, a colon, two digits,
    then AM or PM in any letter case) found in the title; the date is absent
    or non-empty and found in the title; the channel name is absent or the
    stripped content of a non-empty bracket that ends the stripped text after
    the first pipe; and the event title is always present, a (possibly
    empty) piece of that same text. *)
Theorem parse_event_title_fields (t : string) :
  is_event_entry t = true ->
  (exists v, event_time (parse_event_title t) = Some v /\ v <> "" /\
             is_time_token v = true /\ infix v t) /\
  (forall v, event_date (parse_event_title t) = Some v -> v <> "" /\ infix v t) /\
  (exists pre after, t = (pre ++ String "|" after)%string /\ contains "|" pre = false /\
     (forall v, channel_name (parse_event_title t) = Some v ->
        exists p inner, strip after = (p ++ String "[" (inner ++ "]"))%string /\
          inner <> "" /\ all_chars not_rbracket inner = true /\ v = strip inner) /\
     (exists v, event_title (parse_event_title t) = Some v /\ infix v after)).
Proof.
  intros H. unfold is_event_entry in H.
  destruct (search event_at t) as [u|] eqn:Ee; [|discriminate]. clear H.
  assert (Htime : search time_tok_at t <> None).
  { apply (search_mono event_at); [exact event_at_time_tok | congruence]. }
  destruct (search_sound _ _ _ Ee) as (p0 & suf & Ht & Hsuf).
  destruct u. apply event_at_spec in Hsuf as (tok & ws & post & Hs & _).
  destruct (split_once_found "|" (p0 ++ tok ++ ws) post) as (pre & after & Hsp).
  rewrite !sapp_assoc in Hsp. rewrite <- Hs, <- Ht in Hsp.
  rewrite (parse_event_title_eq _ _ _ Hsp). simpl.
  split; [|split].
  - destruct (search time_tok_at t) as [[tk r]|] eqn:Et; [|congruence].
    exists tk. split; [reflexivity|].
    destruct (search_sound _ _ _ Et) as (p1 & s1 & -> & Hs1).
    destruct (time_tok_at_sound _ _ _ Hs1) as (-> & Hne).
    split; [exact Hne|]. split; [exact (time_tok_at_token _ _ _ Hs1)|].
    exists p1, r. reflexivity.
  - intros v Hv. destruct (search_sound _ _ _ Hv) as (p1 & s1 & -> & Hs1).
    destruct (date_at_sound _ _ Hs1) as [Hne Hin]. split; [exact Hne|].
    apply (infix_trans _ _ _ Hin). apply infix_app_l.
  - exists pre, after. split; [exact (split_once_sound _ _ _ _ Hsp)|]. split.
    + clear -Hsp. revert pre Hsp. induction t as [|c r IH]; intros pre; simpl; [discriminate|].
      destruct (Ascii.eqb c "|") eqn:E.
      * intros Hx; injection Hx as <- _. reflexivity.
      * destruct (split_once "|" r) as [[x y]|] eqn:Er; [|discriminate].
        intros Hx; injection Hx as <- <-.
        change (contains "|" (String c x)) with (Ascii.eqb "|" c || contains "|" x).
        rewrite Ascii.eqb_sym, E. exact (IH x eq_refl).
    + split.
      * intros v Hv. destruct (search channel_at (strip after)) as [inner|] eqn:Ec;
          [|discriminate]. injection Hv as <-.
        destruct (search_channel_trailing _ _ (rstrip_no_final_nl _) Ec) as (p & Hp & Hne & Hall).
        exists p, inner. auto.
      * eexists. split; [reflexivity|].
        destruct (search channel_at (strip after));
          [apply strip_re_sub_infix | apply strip_infix].
Qed.

Lemma parse_event_title_fields_witness :
  is_event_entry "01:05am | Finals (09/23/25) [Feed B]" = true /\
  ((exists v, event_time (parse_event_title "01:05am | Finals (09/23/25) [Feed B]") = Some v /\
              v <> "" /\ is_time_token v = true /\ infix v "01:05am | Finals (09/23/25) [Feed B]") /\
   (forall v, event_date (parse_event_title "01:05am | Finals (09/23/25) [Feed B]") = Some v ->
              v <> "" /\ infix v "01:05am | Finals (09/23/25) [Feed B]") /\
   (exists pre after, "01:05am | Finals (09/23/25) [Feed B]" = (pre ++ String "|" after)%string /\
      contains "|" pre = false /\
      (forall v, channel_name (parse_event_title "01:05am | Finals (09/23/25) [Feed B]") = Some v ->
         exists p inner, strip after = (p ++ String "[" (inner ++ "]"))%string /\
           inner <> "" /\ all_chars not_rbracket inner = true /\ v = strip inner) /\
      (exists v, event_title (parse_event_title "01:05am | Finals (09/23/25) [Feed B]") = Some v /\
                 infix v after))).
Proof.
  split; [vm_compute; reflexivity|].
  apply parse_event_title_fields. vm_compute. reflexivity.
Defined.

(** * Further properties of the parser and of [extract_all] *)

(** ** Parsing in two pieces *)

(** X1: the loop over [ls1 ++ ls2] is the loop over [ls1] followed by the
    loop over [ls2], started at the index where [ls1] ends, whenever no
    pairing crosses the boundary. *)
Theorem scan_app (urljoin : string -> string -> string) (base : string)
  (ls1 ls2 : list string) (i : nat) (m : Model) :
  pairs_closed ls1 = true ->
  scan urljoin base i (ls1 ++ ls2) m =
  let* m1 := scan urljoin base i ls1 m in
  scan urljoin base (i + List.length ls1) ls2 m1.
Proof. apply scan_app_closed. Qed.

Lemma scan_app_witness :
  pairs_closed ["#EXTINF:10,a"; "s1.ts"] = true /\
  scan py_urljoin demo_base 0 (["#EXTINF:10,a"; "s1.ts"] ++ ["#EXT-X-CUE-IN"])
    (empty_model demo_base) =
  let* m1 := scan py_urljoin demo_base 0 ["#EXTINF:10,a"; "s1.ts"] (empty_model demo_base) in
  scan py_urljoin demo_base (0 + List.length ["#EXTINF:10,a"; "s1.ts"]) ["#EXT-X-CUE-IN"] m1.
Proof.
  split; [vm_compute; reflexivity|].
  apply scan_app. vm_compute. reflexivity.
Defined.

(** ** Line numbers recorded in events *)

Definition event_line (e : Event) : option nat :=
  match e with
  | ProgramDateTime _ n | CueOut _ n | CueIn n => Some n
  | _ => None
  end.

(** The directive whose branch creates each kind of event. *)
Definition event_tag (e : Event) : string :=
  match e with
  | ChannelEntry _ _ _ _ _ => "#EXTINF"
  | ProgramDateTime _ _ => "#EXT-X-PROGRAM-DATE-TIME"
  | DateRangeEv _ => "#EXT-X-DATERANGE"
  | CueOut _ _ => "#EXT-X-CUE-OUT"
  | CueIn _ => "#EXT-X-CUE-IN"
  end.

(** The [line_number] of an event, if it has one, points at a line of [L]
    that starts, once stripped, with the event's directive. *)
Definition event_line_ok (L : list string) (e : Event) : Prop :=
  match event_line e with
  | Some n => exists raw, nth_error L n = Some raw /\ startswith (event_tag e) (strip raw) = true
  | None => True
  end.

Definition line_numbers (es : list Event) : list nat :=
  flat_map (fun e => match event_line e with Some n => [n] | None => [] end) es.

Lemma line_numbers_app es es' : line_numbers (es ++ es') = line_numbers es ++ line_numbers es'.
Proof. unfold line_numbers. apply flat_map_app. Qed.

Lemma StronglySorted_snoc {A} (R : A -> A -> Prop) l x :
  StronglySorted R l -> Forall (fun y => R y x) l -> StronglySorted R (l ++ [x]).
Proof.
  induction l as [|a l IH]; simpl; intros Hs Hf.
  - repeat constructor.
  - inversion Hs as [|? ? Hl Ha]; subst. inversion Hf as [|? ? Hax Hl']; subst.
    constructor; [exact (IH Hl Hl')|]. apply Forall_app. split; [exact Ha|]. constructor; auto.
Qed.

Lemma skipn_cons_step {A} (L : list A) i x r :
  skipn i L = x :: r -> nth_error L i = Some x /\ skipn (S i) L = r.
Proof.
  revert L. induction i as [|i IH]; intros [|y L]; simpl; try discriminate.
  - intros H; injection H as -> ->. auto.
  - apply IH.
Qed.

Lemma line_step_events i line m m' :
  line_step i line m = Ok m' ->
  events m' = events m \/
  exists e, events m' = events m ++ [e] /\
    (event_line e = None \/ (event_line e = Some i /\ startswith (event_tag e) line = true)).
Proof.
  unfold line_step.
  destruct (startswith "#EXT-X-VERSION" line).
  { destruct (py_index _ _); simpl; [|discriminate]. intros H; injection H as <-; auto. }
  destruct (startswith "#EXT-X-TARGETDURATION" line).
  { destruct (py_index _ _) as [v|]; simpl; [|discriminate].
    destruct (py_int_r v); simpl; [|discriminate]. intros H; injection H as <-; auto. }
  destruct (startswith "#EXT-X-MEDIA-SEQUENCE" line).
  { destruct (py_index _ _) as [v|]; simpl; [|discriminate].
    destruct (py_int_r v); simpl; [|discriminate]. intros H; injection H as <-; auto. }
  destruct (startswith "#EXT-X-PROGRAM-DATE-TIME" line) eqn:E1.
  { destruct (py_index _ _) as [v|]; simpl; [|discriminate].
    intros H; injection H as <-. right. eexists. split; [reflexivity|]. right. auto. }
  destruct (startswith "#EXT-X-DATERANGE" line).
  { destruct (parse_daterange _); simpl; [|discriminate].
    intros H; injection H as <-. right. eexists. split; [reflexivity|]. left. reflexivity. }
  destruct (startswith "#EXT-X-CUE-OUT" line) eqn:E2.
  { intros H; injection H as <-. right. eexists. split; [reflexivity|]. right. auto. }
  destruct (startswith "#EXT-X-CUE-IN" line) eqn:E3.
  { intros H; injection H as <-. right. eexists. split; [reflexivity|]. right. auto. }
  intros H; injection H as <-. auto.
Qed.

Lemma add_extinf_events urljoin base m info nx :
  line_numbers (events (add_extinf urljoin base m info nx)) = line_numbers (events m).
Proof.
  unfold add_extinf. destruct (title info) as [t|]; [destruct (is_event_entry t)|];
    simpl; rewrite ?line_numbers_app; simpl; rewrite ?app_nil_r; reflexivity.
Qed.

Lemma add_extinf_events_ok urljoin base m info nx L :
  Forall (event_line_ok L) (events m) ->
  Forall (event_line_ok L) (events (add_extinf urljoin base m info nx)).
Proof.
  unfold add_extinf. destruct (title info) as [t|]; [destruct (is_event_entry t)|];
    simpl; intros H; try exact H.
  apply Forall_app. split; [exact H|]. constructor; [exact I|constructor].
Qed.

Definition lines_inv (L : list string) (i : nat) (m : Model) : Prop :=
  Forall (event_line_ok L) (events m) /\
  StronglySorted lt (line_numbers (events m)) /\
  Forall (fun n => n < i) (line_numbers (events m)).

Lemma lines_inv_mono L i j m : i <= j -> lines_inv L i m -> lines_inv L j m.
Proof.
  intros Hij (H1 & H2 & H3). split; [exact H1|]. split; [exact H2|].
  eapply Forall_impl; [|exact H3]. simpl. intros; lia.
Qed.

Lemma scan_lines_inv urljoin base L ls i m m' :
  skipn i L = ls -> lines_inv L i m -> scan urljoin base i ls m = Ok m' ->
  exists j, lines_inv L j m'.
Proof.
  remember (List.length ls) as n eqn:Hn. assert (Hle : List.length ls <= n) by lia.
  clear Hn. revert ls i m Hle.
  induction n as [|n IH]; intros ls i m Hle Hsk Hinv Hs.
  - destruct ls; [injection Hs as <-; eauto | simpl in Hle; lia].
  - destruct ls as [|raw rest]; [injection Hs as <-; eauto|].
    simpl in Hle. destruct (skipn_cons_step _ _ _ _ Hsk) as [Hnth Hsk1].
    destruct (is_stream_inf_line raw) eqn:Es.
    + destruct rest as [|nx rest'].
      * rewrite scan_stream_inf_last in Hs by exact Es. injection Hs as <-. eauto.
      * rewrite scan_stream_inf in Hs by exact Es.
        destruct (skipn_cons_step _ _ _ _ Hsk1) as [_ Hsk2]. simpl in Hle.
        refine (IH rest' (S (S i)) _ ltac:(lia) Hsk2 _ Hs).
        apply (lines_inv_mono L i); [lia|]. exact Hinv.
    + destruct (is_extinf_line raw) eqn:Ee.
      * destruct rest as [|nx rest'].
        -- rewrite scan_extinf_last in Hs by exact Ee.
           apply bind_ok in Hs as (? & _ & Hs). injection Hs as <-. eauto.
        -- rewrite scan_extinf in Hs by exact Ee.
           apply bind_ok in Hs as (info & _ & Hs).
           destruct (skipn_cons_step _ _ _ _ Hsk1) as [_ Hsk2]. simpl in Hle.
           refine (IH rest' (S (S i)) _ ltac:(lia) Hsk2 _ Hs).
           destruct Hinv as (H1 & H2 & H3).
           split; [apply add_extinf_events_ok; exact H1|].
           rewrite add_extinf_events. split; [exact H2|].
           eapply Forall_impl; [|exact H3]. simpl. intros; lia.
      * rewrite scan_single in Hs by assumption.
        apply bind_ok in Hs as (m1 & Hl & Hs).
        refine (IH rest (S i) _ ltac:(lia) Hsk1 _ Hs).
        destruct Hinv as (H1 & H2 & H3).
        unfold lines_inv.
        destruct (line_step_events _ _ _ _ Hl) as [He|(e & He & Hline)]; rewrite He.
        -- split; [exact H1|]. split; [exact H2|].
           eapply Forall_impl; [|exact H3]. simpl. intros; lia.
        -- rewrite line_numbers_app.
           destruct Hline as [Hn|[Hn Ht]].
           ++ unfold line_numbers at 2. simpl. rewrite Hn. simpl. rewrite app_nil_r.
              split; [apply Forall_app; split; [exact H1|]; constructor;
                      [unfold event_line_ok; rewrite Hn; exact I|constructor]|].
              split; [exact H2|]. eapply Forall_impl; [|exact H3]. simpl. intros; lia.
           ++ unfold line_numbers at 2. simpl. rewrite Hn. simpl.
              split; [apply Forall_app; split; [exact H1|]; constructor; [|constructor]|].
              { unfold event_line_ok. rewrite Hn. exists raw. auto. }
              split; [apply StronglySorted_snoc; assumption|].
              apply Forall_app. split; [eapply Forall_impl; [|exact H3]; simpl; intros; lia|].
              constructor; [lia|constructor].
Qed.

(** X2: after a successful parse, every [program_date_time], [cue_out] and
    [cue_in] event records as [line_number] the index of its own line in
    [content.strip().split('\n')], a line that starts with the directive of
    that event; and these line numbers increase strictly along [events]. *)
Theorem parse_m3u8_line_numbers (urljoin : string -> string -> string)
  (content base : string) (m : Model) :
  parse_m3u8 urljoin content base = Ok m ->
  Forall (event_line_ok (lines_of content)) (events m) /\
  StronglySorted lt (line_numbers (events m)).
Proof.
  unfold parse_m3u8. intros Hs.
  destruct (scan_lines_inv urljoin base (lines_of content) (lines_of content) 0
              (empty_model base) m eq_refl) as (j & H1 & H2 & _).
  - split; [constructor|]. split; constructor.
  - exact Hs.
  - auto.
Qed.

Lemma parse_m3u8_line_numbers_witness :
  exists m, parse_m3u8 py_urljoin
      (join_lines ["#EXTM3U"; "#EXT-X-PROGRAM-DATE-TIME:2025-01-01T00:00:00Z";
                   "#EXT-X-CUE-OUT:30"; "#EXTINF:10,a"; "s1.ts"; "#EXT-X-CUE-IN"]) demo_base
      = Ok m /\
    line_numbers (events m) = [1; 2; 5] /\
    Forall (event_line_ok (lines_of
      (join_lines ["#EXTM3U"; "#EXT-X-PROGRAM-DATE-TIME:2025-01-01T00:00:00Z";
                   "#EXT-X-CUE-OUT:30"; "#EXTINF:10,a"; "s1.ts"; "#EXT-X-CUE-IN"]))) (events m) /\
    StronglySorted lt (line_numbers (events m)).
Proof.
  eexists. split; [vm_compute; reflexivity|]. split; [vm_compute; reflexivity|].
  apply (parse_m3u8_line_numbers py_urljoin _ demo_base). vm_compute. reflexivity.
Defined.

(** ** Segments and channel entries *)

Definition segment_not_event (s : Segment) : Prop :=
  forall t, title (seg_info s) = Some t -> is_event_entry t = false.

Definition channel_from_title (e : Event) : Prop :=
  match e with
  | ChannelEntry ev _ _ _ _ => exists t, is_event_entry t = true /\ ev = parse_event_title t
  | _ => True
  end.

(** X3: after a successful parse, no segment carries a title accepted by
    the event grammar, and every channel entry among the events is the
    decoding, by [parse_event_title], of such a title. *)
Theorem parse_m3u8_segments_channels (urljoin : string -> string -> string)
  (content base : string) (m : Model) :
  parse_m3u8 urljoin content base = Ok m ->
  Forall segment_not_event (segments m) /\ Forall channel_from_title (events m).
Proof.
  unfold parse_m3u8. intros Hs.
  refine (scan_invariant urljoin base
            (fun m => Forall segment_not_event (segments m) /\
                      Forall channel_from_title (events m))
            _ _ _ _ _ _ _ _ _ Hs); simpl.
  - intros m0 md H. exact H.
  - intros m0 e He [H1 H2]. split; [exact H1|]. simpl.
    apply Forall_app. split; [exact H2|]. constructor; [|constructor].
    destruct e; [discriminate|exact I..].
  - intros m0 info u H. exact H.
  - intros m0 info nx [H1 H2]. unfold add_extinf.
    destruct (title info) as [t|] eqn:Et; [destruct (is_event_entry t) eqn:Ee|]; simpl.
    + split; [exact H1|]. apply Forall_app. split; [exact H2|].
      constructor; [exists t; auto|constructor].
    + split; [|exact H2]. apply Forall_app. split; [exact H1|].
      constructor; [|constructor]. intros t' Ht'. simpl in Ht'. congruence.
    + split; [|exact H2]. apply Forall_app. split; [exact H1|].
      constructor; [|constructor]. intros t' Ht'. simpl in Ht'. congruence.
  - split; constructor.
Qed.

Lemma parse_m3u8_segments_channels_witness :
  exists m, parse_m3u8 py_urljoin demo_grouped demo_base = Ok m /\
    Forall segment_not_event (segments m) /\ Forall channel_from_title (events m).
Proof.
  eexists. split; [vm_compute; reflexivity|].
  apply (parse_m3u8_segments_channels py_urljoin demo_grouped demo_base).
  vm_compute. reflexivity.
Defined.

(** ** [extract_all] at its edges *)

(** X4: [extract_all] returns the error dictionary exactly when the fetch of
    the playlist URL fails or yields an empty body, and its message is then
    [Failed to fetch playlist]. *)
Theorem extract_all_error_iff (urljoin : string -> string -> string)
  (fetch : string -> option string) (url e : string) :
  extract_all urljoin fetch url = Ok (inl e) <->
  (fetch url = None \/ fetch url = Some "") /\ e = "Failed to fetch playlist".
Proof.
  unfold extract_all. destruct (fetch url) as [c|].
  - unfold truthy. destruct (c =? "") eqn:E.
    + apply String.eqb_eq in E as ->. simpl. split.
      * intros H; injection H as <-. auto.
      * intros [_ ->]. reflexivity.
    + simpl. split.
      * destruct (parse_m3u8 urljoin c url) as [r|x]; simpl; [|discriminate].
        destruct (streams r); [discriminate|].
        destruct (map_r _ _); simpl; discriminate.
      * intros [[H|H] _]; [discriminate|]. injection H as ->. discriminate E.
  - split.
    + intros H; injection H as <-. auto.
    + intros [_ ->]. reflexivity.
Qed.

(** X5: for a media playlist (its parse has no [streams]), [extract_all]
    returns the parse of the fetched body unchanged: no other URL is
    fetched, whatever the collaborator answers for it. *)
Theorem extract_all_media_playlist (urljoin : string -> string -> string)
  (fetch : string -> option string) (url content : string) (r : Model) :
  fetch url = Some content -> content <> "" ->
  parse_m3u8 urljoin content url = Ok r -> streams r = [] ->
  forall fetch' : string -> option string, fetch' url = fetch url ->
  extract_all urljoin fetch' url = Ok (inr r).
Proof.
  intros Hf Hc Hp Hs fetch' Hf'. unfold extract_all. rewrite Hf', Hf.
  unfold truthy. destruct (content =? "") eqn:E; [apply String.eqb_eq in E; congruence|].
  simpl. rewrite Hp. simpl. rewrite Hs. reflexivity.
Qed.

Definition demo_media : string := join_lines ["#EXTM3U"; "#EXTINF:10,a"; "s1.ts"].

Lemma extract_all_media_playlist_witness :
  exists r, parse_m3u8 py_urljoin demo_media demo_base = Ok r /\
    extract_all py_urljoin (fun u => if u =? demo_base then Some demo_media else None)
      demo_base = Ok (inr r).
Proof.
  eexists. split; [vm_compute; reflexivity|].
  apply (extract_all_media_playlist py_urljoin
           (fun u => if u =? demo_base then Some demo_media else None) demo_base demo_media);
    [vm_compute; reflexivity | discriminate | vm_compute; reflexivity
    | vm_compute; reflexivity | reflexivity].
Defined.

(** ** Signs of numeric attributes *)

Lemma digits_Z_nonneg s : (0 <= digits_Z s)%Z.
Proof.
  unfold digits_Z.
  match goal with |- (0 <= ?F 0%Z s)%Z =>
    assert (H : forall s acc, (0 <= acc)%Z -> (0 <= F acc s)%Z) end.
  { induction s0 as [|c r IH]; intros acc Hacc; [exact Hacc|].
    apply IH. unfold digit_val. lia. }
  apply H. lia.
Qed.

Lemma digit_not_space c : is_digit c = true -> is_space c = false.
Proof.
  unfold is_digit, is_space. set (n := nat_of_ascii c). intros H.
  apply andb_prop in H as [H1 H2]. apply Nat.leb_le in H1, H2.
  destruct (Nat.leb_spec 9 n), (Nat.leb_spec n 13), (Nat.leb_spec 28 n), (Nat.leb_spec n 32);
    simpl; try reflexivity; lia.
Qed.

Lemma dec_char_not_space c : is_dec_char c = true -> is_space c = false.
Proof.
  unfold is_dec_char. intros H. apply orb_true_iff in H as [H|H].
  - exact (digit_not_space c H).
  - apply ascii_eqb_true in H as ->. reflexivity.
Qed.

Lemma all_chars_impl (p q : ascii -> bool) s :
  (forall c, p c = true -> q c = true) -> all_chars p s = true -> all_chars q s = true.
Proof.
  intros Hpq. induction s as [|c r IH]; simpl; [reflexivity|].
  intros H. apply andb_prop in H as [H1 H2]. rewrite (Hpq c H1), (IH H2). reflexivity.
Qed.

Lemma rstrip_id s : all_chars (fun c => negb (is_space c)) s = true -> rstrip s = s.
Proof.
  induction s as [|c r IH]; simpl; [reflexivity|].
  intros H. apply andb_prop in H as [H1 H2]. apply negb_true_iff in H1.
  rewrite H1, (IH H2). reflexivity.
Qed.

Lemma strip_id s : all_chars (fun c => negb (is_space c)) s = true -> strip s = s.
Proof.
  intros H. unfold strip.
  assert (Hl : lstrip s = s).
  { destruct s as [|c r]; [reflexivity|]. simpl in H. apply andb_prop in H as [H1 _].
    apply negb_true_iff in H1. simpl. rewrite H1. reflexivity. }
  rewrite Hl. apply rstrip_id. exact H.
Qed.

Lemma pow10_nonneg e : (0 <= pow10 e)%Q.
Proof.
  unfold pow10. destruct (e <? 0)%Z.
  - apply Qinv_le_0_compat. change 0%Q with (inject_Z 0). rewrite <- Zle_Qle.
    apply Z.pow_nonneg. lia.
  - change 0%Q with (inject_Z 0). rewrite <- Zle_Qle. apply Z.pow_nonneg. lia.
Qed.

Lemma float_value_nonneg x e : (0 <= Qred (inject_Z (digits_Z x) * pow10 e))%Q.
Proof.
  rewrite Qred_correct. apply Qmult_le_0_compat; [|apply pow10_nonneg].
  change 0%Q with (inject_Z 0). rewrite <- Zle_Qle. apply digits_Z_nonneg.
Qed.

Lemma float_body_nonneg s q : float_body s = Some q -> (0 <= q)%Q.
Proof.
  unfold float_body.
  repeat (match goal with
          | |- context [match ?x with _ => _ end] => destruct x
          | |- context [if ?b then _ else _] => destruct b
          end); intros H; try discriminate; injection H as <-; apply float_value_nonneg.
Qed.

Lemma py_float_dec_nonneg v q :
  v <> "" -> all_chars is_dec_char v = true -> py_float v = Some q -> (0 <= q)%Q.
Proof.
  intros Hne Hv. unfold py_float.
  rewrite strip_id by (apply (all_chars_impl is_dec_char); [|exact Hv];
                       intros c Hc; rewrite (dec_char_not_space c Hc); reflexivity).
  destruct v as [|c r]; [congruence|]. simpl in Hv. apply andb_prop in Hv as [Hc _].
  destruct (Ascii.eqb c "-") eqn:E1; [apply ascii_eqb_true in E1; subst; discriminate Hc|].
  destruct (Ascii.eqb c "+") eqn:E2; [apply ascii_eqb_true in E2; subst; discriminate Hc|].
  apply float_body_nonneg.
Qed.

Lemma class_attr_at_sound key cls s v :
  class_attr_at key cls s = Some v -> v <> "" /\ all_chars cls v = true.
Proof.
  unfold class_attr_at. destruct (strip_prefix key s) as [r|]; [|discriminate].
  destruct (span cls r) as [a b] eqn:E. simpl.
  destruct (a =? "") eqn:Ea; [discriminate|]. intros H; injection H as <-.
  split; [intros ->; discriminate Ea|]. apply (span_sound _ _ _ _ E).
Qed.

(** X6: numeric attributes are never negative: a [DURATION] that
    [parse_daterange] decodes without raising is at least 0, and so is the
    [BANDWIDTH] of [parse_stream_inf]. *)
Theorem numeric_attributes_nonneg (line : string) :
  (forall d q, parse_daterange line = Ok d -> dr_duration d = Some q -> (0 <= q)%Q) /\
  (forall b, bandwidth (parse_stream_inf line) = Some b -> (0 <= b)%Z).
Proof.
  split.
  - intros d q. unfold parse_daterange.
    destruct (search (class_attr_at "DURATION=" is_dec_char) line) as [v|] eqn:Es.
    + destruct (py_float v) as [q'|] eqn:Ef; simpl; [|discriminate].
      intros H Hq; injection H as <-. simpl in Hq. injection Hq as <-.
      destruct (search_sound _ _ _ Es) as (pre & suf & _ & Hs).
      destruct (class_attr_at_sound _ _ _ _ Hs) as [Hne Hall].
      exact (py_float_dec_nonneg v q' Hne Hall Ef).
    + simpl. intros H Hq; injection H as <-. discriminate.
  - intros b. unfold parse_stream_inf. simpl.
    destruct (search _ line); simpl; [|discriminate].
    intros H; injection H as <-. apply digits_Z_nonneg.
Qed.

Lemma numeric_attributes_nonneg_witness :
  exists d q, parse_daterange "#EXT-X-DATERANGE:ID=a,DURATION=30.5" = Ok d /\
    dr_duration d = Some q /\ (0 <= q)%Q.
Proof.
  do 2 eexists. split; [vm_compute; reflexivity|]. split; [vm_compute; reflexivity|].
  eapply (proj1 (numeric_attributes_nonneg "#EXT-X-DATERANGE:ID=a,DURATION=30.5"));
    vm_compute; reflexivity.
Defined.

Lemma extract_all_error_iff_witness :
  extract_all py_urljoin (fun u => if u =? demo_base then Some "" else None) demo_base
  = Ok (inl "Failed to fetch playlist").
Proof.
  apply (proj2 (extract_all_error_iff py_urljoin
                  (fun u => if u =? demo_base then Some "" else None) demo_base
                  "Failed to fetch playlist")).
  split; [right; vm_compute; reflexivity | reflexivity].
Defined.

(** * [extract_m3u8.py] *)

(** ** [extract_m3u8_from_channel] *)

(** The regex class of the two quote characters (double and single) and
    its complement. *)
Definition is_quote (c : ascii) : bool := Ascii.eqb c dq || Ascii.eqb c "'".
Definition not_quote (c : ascii) : bool := negb (is_quote c).

(** A literal [p] at the head of [s] under [re.IGNORECASE]: the text it
    matched (in the case of [s]) and the rest. *)
Fixpoint take_ci (p s : string) : option (string * string) :=
  match p, s with
  | EmptyString, _ => Some (EmptyString, s)
  | String a p', String b s' =>
      if ci a b then
        match take_ci p' s' with
        | Some (x, r) => Some (String b x, r)
        | None => None
        end
      else None
  | String _ _, EmptyString => None
  end.

Definition starts_ci (p s : string) : bool :=
  match take_ci p s with Some _ => true | None => false end.

(** [p in s] under [re.IGNORECASE]. *)
Fixpoint contains_ci (p s : string) : bool :=
  starts_ci p s || match s with EmptyString => false | String _ r => contains_ci p r end.

(** [https?://] at one position, [s?] tried with the [s] first. *)
Definition scheme_at (s : string) : option (string * string) :=
  match take_ci "http" s with
  | Some (h, r) =>
      match
        match r with
        | String c r1 =>
            if ci c "s" then
              match take_ci "://" r1 with
              | Some (x, r2) => Some (String c x, r2)
              | None => None
              end
            else None
        | EmptyString => None
        end
      with
      | Some (x, r2) => Some ((h ++ x)%string, r2)
      | None =>
          match take_ci "://" r with
          | Some (x, r2) => Some ((h ++ x)%string, r2)
          | None => None
          end
      end
  | None => None
  end.

(** The first pattern at one position: a quote, then the group
    [https?://], non-quotes, [.m3u8], non-quotes, then a quote.  Every
    character the two non-quote runs and the literal [.m3u8] consume is a
    non-quote, and a quote must follow, so the group runs from the scheme to
    the first quote after it, and must contain [.m3u8]. *)
Definition url_at (s : string) : option string :=
  match s with
  | String q r =>
      if is_quote q then
        match scheme_at r with
        | Some (sch, r1) =>
            let (run, r2) := span not_quote r1 in
            match r2 with
            | String _ _ => if contains_ci ".m3u8" run then Some (sch ++ run)%string else None
            | EmptyString => None
            end
        | None => None
        end
      else None
  | EmptyString => None
  end.

(** [kw\s*:\s*] followed by the quoted URL pattern, at one position. *)
Definition kw_at (kw : string) (s : string) : option string :=
  match take_ci kw s with
  | Some (_, r) =>
      match snd (span is_space r) with
      | String c r1 => if Ascii.eqb c ":" then url_at (snd (span is_space r1)) else None
      | EmptyString => None
      end
  | None => None
  end.

(** [m3u8_patterns], in order. *)
Definition m3u8_patterns : list (string -> option string) :=
  [url_at; kw_at "source"; kw_at "file"; kw_at "src"; kw_at "hlsUrl"; kw_at "stream"].

(** [for pattern in m3u8_patterns: matches = re.findall(...); if matches:
    return matches[0]]: the first element of [findall] is the group of the
    leftmost match, the one [search] finds. *)
Fixpoint first_pattern_match (pats : list (string -> option string)) (content : string)
  : option string :=
  match pats with
  | [] => None
  | p :: ps =>
      match search p content with
      | Some g => Some g
      | None => first_pattern_match ps content
      end
  end.

Fixpoint sdrop (n : nat) (s : string) : string :=
  match n, s with
  | O, _ => s
  | S k, String _ r => sdrop k r
  | S _, EmptyString => EmptyString
  end.

Fixpoint first_some {A B} (f : A -> option B) (l : list A) : option B :=
  match l with
  | [] => None
  | x :: t => match f x with Some y => Some y | None => first_some f t end
  end.

(** The tail of the iframe pattern at one position: [src=], a quote, the
    group ([https?://] and a non-empty run of non-quotes), a quote; the
    group and the text after the match. *)
Definition src_at (s : string) : option (string * string) :=
  match take_ci "src=" s with
  | Some (_, r) =>
      match r with
      | String q r1 =>
          if is_quote q then
            match scheme_at r1 with
            | Some (sch, r2) =>
                let (run, r3) := span not_quote r2 in
                match r3 with
                | String _ r4 => if negb (run =? "") then Some ((sch ++ run)%string, r4) else None
                | EmptyString => None
                end
            | None => None
            end
          else None
      | EmptyString => None
      end
  | None => None
  end.

(** [iframe_pattern] at one position: [<iframe], then [[^>]*] greedy, so
    the [src=] attribute is tried at the last possible place first. *)
Definition iframe_at (s : string) : option (string * string) :=
  match take_ci "<iframe" s with
  | Some (_, r) =>
      let run := fst (span (fun c => negb (Ascii.eqb c ">")) r) in
      first_some (fun j => src_at (sdrop j r)) (rev (seq 0 (S (String.length run))))
  | None => None
  end.

(** [re.findall] for a pattern whose matches are never empty: the groups of
    the successive non-overlapping matches, left to right. *)
Fixpoint findall_fuel (fuel : nat) (f : string -> option (string * string)) (s : string)
  : list string :=
  match fuel with
  | O => []
  | S k =>
      match f s with
      | Some (g, rest) => g :: findall_fuel k f rest
      | None =>
          match s with
          | EmptyString => []
          | String _ r => findall_fuel k f r
          end
      end
  end.

Definition findall (f : string -> option (string * string)) (s : string) : list string :=
  findall_fuel (S (String.length s)) f s.

Section Channel.

(** [requests.get(url, headers=headers, timeout=t).text]: [None] when the
    request raises. *)
Variable get : nat -> string -> option string.

(** [extract_m3u8_from_channel]; every exception becomes [None]. *)
Definition extract_m3u8_from_channel (channel_url : string) : option string :=
  match get 15 channel_url with
  | None => None
  | Some content =>
      match first_pattern_match m3u8_patterns content with
      | Some g => Some g
      | None =>
          let iframe_matches := findall iframe_at content in
          match iframe_matches with
          | [] => None
          | _ :: _ =>
              (fix try_iframes (us : list string) : option string :=
                 match us with
                 | [] => None
                 | iframe_url :: us' =>
                     match get 10 iframe_url with
                     | None => try_iframes us'
                     | Some text =>
                         match first_pattern_match m3u8_patterns text with
                         | Some g => Some g
                         | None => try_iframes us'
                         end
                     end
                 end) (firstn 2 iframe_matches)
          end
      end
  end.

End Channel.

Definition demo_page : string :=
  ("<script>var player = {file: " ++ quoted "https://cdn.example/live/ch1.m3u8?token=ab"
   ++ "};</script>")%string.

Example extract_m3u8_ex1 :
  extract_m3u8_from_channel (fun _ u => if u =? "https://p/1" then Some demo_page else None)
    "https://p/1" = Some "https://cdn.example/live/ch1.m3u8?token=ab".
Proof. vm_compute. reflexivity. Qed.

Definition demo_iframe_page : string :=
  ("<div><IFRAME width=1 SRC=" ++ quoted "https://e/a" ++ " src='https://e/b'>"
   ++ "<iframe src='http://e/c'></iframe>")%string.

Example findall_iframe_ex :
  findall iframe_at demo_iframe_page = ["https://e/b"; "http://e/c"].
Proof. vm_compute. reflexivity. Qed.

Example extract_m3u8_ex2 :
  extract_m3u8_from_channel
    (fun _ u => if u =? "https://p/2" then Some demo_iframe_page
                else if u =? "http://e/c" then Some "src: 'HTTP://x/y.M3U8'" else None)
    "https://p/2" = Some "HTTP://x/y.M3U8".
Proof. vm_compute. reflexivity. Qed.

Example url_at_ex :
  search url_at (quoted "https://x/a.m3u8") = Some "https://x/a.m3u8" /\
  search url_at ("'HTTPS://x/a.M3U8?q=1" ++ String dq "")%string = Some "HTTPS://x/a.M3U8?q=1" /\
  search url_at (String dq "http://x/a.m3u8") = None /\
  search url_at (quoted "https://x.m3u8/") = Some "https://x.m3u8/" /\
  search url_at (quoted "https:/x.m3u8") = None /\
  search url_at "'http://a b.m3u8 c'" = Some "http://a b.m3u8 c".
Proof. repeat split; vm_compute; reflexivity. Qed.

Lemma take_ci_sound p s x r :
  take_ci p s = Some (x, r) -> s = (x ++ r)%string /\ forall y, take_ci p (x ++ y) = Some (x, y).
Proof.
  revert s x r. induction p as [|a p IH]; intros s x r; simpl.
  - intros H; injection H as <- <-. auto.
  - destruct s as [|b s']; [discriminate|].
    destruct (ci a b) eqn:E; [|discriminate].
    destruct (take_ci p s') as [[x' r']|] eqn:Et; [|discriminate].
    intros H; injection H as <- <-. destruct (IH _ _ _ Et) as [-> Hy].
    split; [reflexivity|]. intros y. simpl. rewrite E, Hy. reflexivity.
Qed.

Lemma take_ci_cat p1 p2 s x1 r1 x2 r2 :
  take_ci p1 s = Some (x1, r1) -> take_ci p2 r1 = Some (x2, r2) ->
  take_ci (p1 ++ p2) s = Some ((x1 ++ x2)%string, r2).
Proof.
  revert s x1 r1. induction p1 as [|a p IH]; intros s x1 r1; simpl.
  - intros H; injection H as <- <-. auto.
  - destruct s as [|b s']; [discriminate|].
    destruct (ci a b); [|discriminate].
    destruct (take_ci p s') as [[x' r']|] eqn:Et; [|discriminate].
    intros H H2; injection H as <- <-. rewrite (IH _ _ _ Et H2). reflexivity.
Qed.

Lemma is_quote_lower c : is_quote (lower c) = is_quote c.
Proof. destruct c as [[] [] [] [] [] [] [] []]; vm_compute; reflexivity. Qed.

Lemma ci_is_quote a b : ci a b = true -> is_quote b = is_quote a.
Proof.
  unfold ci. intros H. apply ascii_eqb_true in H.
  rewrite <- (is_quote_lower b), <- H, is_quote_lower. reflexivity.
Qed.

Lemma take_ci_not_quote p s x r :
  all_chars not_quote p = true -> take_ci p s = Some (x, r) -> all_chars not_quote x = true.
Proof.
  revert s x r. induction p as [|a p IH]; intros s x r; simpl.
  - intros _ H; injection H as <- _. reflexivity.
  - intros Hp. apply andb_prop in Hp as [Ha Hp].
    destruct s as [|b s']; [discriminate|].
    destruct (ci a b) eqn:E; [|discriminate].
    destruct (take_ci p s') as [[x' r']|] eqn:Et; [|discriminate].
    intros H; injection H as <- _. simpl.
    unfold not_quote in *. rewrite (ci_is_quote _ _ E), Ha. exact (IH _ _ _ Hp Et).
Qed.

Lemma all_chars_app p a b : all_chars p (a ++ b) = all_chars p a && all_chars p b.
Proof. induction a as [|c a IH]; simpl; [reflexivity|]. rewrite IH, andb_assoc. reflexivity. Qed.

Lemma scheme_at_sound s sch r :
  scheme_at s = Some (sch, r) ->
  s = (sch ++ r)%string /\
  (take_ci "http://" s = Some (sch, r) \/ take_ci "https://" s = Some (sch, r)) /\
  all_chars not_quote sch = true.
Proof.
  unfold scheme_at. destruct (take_ci "http" s) as [[h r0]|] eqn:Eh; [|discriminate].
  assert (Hno : forall x r2, take_ci "://" r0 = Some (x, r2) ->
            Some ((h ++ x)%string, r2) = Some (sch, r) ->
            s = (sch ++ r)%string /\
            (take_ci "http://" s = Some (sch, r) \/ take_ci "https://" s = Some (sch, r)) /\
            all_chars not_quote sch = true).
  { intros x r2 Hx H; injection H as <- <-.
    pose proof (take_ci_cat "http" "://" _ _ _ _ _ Eh Hx) as Hc.
    split; [|split].
    - destruct (take_ci_sound _ _ _ _ Hc) as [Hs _]. exact Hs.
    - left. exact Hc.
    - eapply take_ci_not_quote; [|exact Hc]; reflexivity. }
  destruct r0 as [|c r1].
  - cbn. discriminate.
  - destruct (ci c "s") eqn:Ec.
    + destruct (take_ci "://" r1) as [[x r2]|] eqn:Ex.
      * intros H; injection H as <- <-.
        assert (Hs : take_ci "s" (String c r1) = Some (String c "", r1)).
        { simpl. unfold ci in *. rewrite Ascii.eqb_sym, Ec. reflexivity. }
        pose proof (take_ci_cat "s" "://" _ _ _ _ _ Hs Ex) as Hsx.
        pose proof (take_ci_cat "http" "s://" _ _ _ _ _ Eh Hsx) as Hc.
        split; [|split].
        -- destruct (take_ci_sound _ _ _ _ Hc) as [Hs' _]. exact Hs'.
        -- right. exact Hc.
        -- eapply take_ci_not_quote; [|exact Hc]; reflexivity.
      * destruct (take_ci "://" (String c r1)) as [[x r2]|] eqn:Ex2; [|discriminate].
        apply (Hno _ _ eq_refl).
    + destruct (take_ci "://" (String c r1)) as [[x r2]|] eqn:Ex2; [|discriminate].
      apply (Hno _ _ eq_refl).
Qed.

Lemma contains_ci_app_l p x y : contains_ci p y = true -> contains_ci p (x ++ y) = true.
Proof.
  induction x as [|c x IH]; simpl; intros H; [exact H|].
  rewrite (IH H). apply orb_true_r.
Qed.

(** The shape of a URL the search returns. *)
Definition m3u8_url_shape (g : string) : Prop :=
  (starts_ci "http://" g || starts_ci "https://" g) = true /\
  all_chars not_quote g = true /\ contains_ci ".m3u8" g = true.

Lemma url_at_shape s g : url_at s = Some g -> m3u8_url_shape g.
Proof.
  unfold url_at. destruct s as [|q r]; [discriminate|].
  destruct (is_quote q); [|discriminate].
  destruct (scheme_at r) as [[sch r1]|] eqn:Es; [|discriminate].
  destruct (span not_quote r1) as [run r2] eqn:Er.
  destruct r2 as [|c r3]; [discriminate|].
  destruct (contains_ci ".m3u8" run) eqn:Ec; [|discriminate].
  intros H; injection H as <-.
  destruct (scheme_at_sound _ _ _ Es) as (-> & Ht & Hq).
  destruct (span_sound _ _ _ _ Er) as (-> & Hrun & _).
  unfold m3u8_url_shape, starts_ci. split; [|split].
  - destruct Ht as [Ht|Ht]; destruct (take_ci_sound _ _ _ _ Ht) as [_ Hy];
      rewrite Hy; [reflexivity|apply orb_true_r].
  - rewrite all_chars_app, Hq, Hrun. reflexivity.
  - apply contains_ci_app_l. exact Ec.
Qed.

Lemma kw_at_sound kw s g :
  kw_at kw s = Some g -> exists pre suf, s = (pre ++ suf)%string /\ url_at suf = Some g.
Proof.
  unfold kw_at. destruct (take_ci kw s) as [[x r]|] eqn:Ek; [|discriminate].
  destruct (take_ci_sound _ _ _ _ Ek) as [-> _].
  destruct (span is_space r) as [ws r'] eqn:E1. simpl.
  destruct r' as [|c r1]; [discriminate|].
  destruct (Ascii.eqb c ":") eqn:Ec; [|discriminate].
  destruct (span is_space r1) as [ws2 r2] eqn:E2. simpl. intros H.
  destruct (span_sound _ _ _ _ E1) as (-> & _).
  destruct (span_sound _ _ _ _ E2) as (-> & _).
  exists (x ++ ws ++ String c ws2)%string, r2. split; [|exact H].
  repeat (rewrite sapp_assoc; simpl). reflexivity.
Qed.

Lemma search_kw_url kw content g :
  search (kw_at kw) content = Some g -> exists g', search url_at content = Some g'.
Proof.
  intros H. destruct (search_sound _ _ _ H) as (p & s & -> & Hs).
  destruct (kw_at_sound _ _ _ Hs) as (pre & suf & -> & Hu).
  rewrite <- sapp_assoc. exact (search_complete _ _ _ _ Hu).
Qed.

(** X7: the five keyword patterns of [m3u8_patterns] never decide the
    result: whatever the page, the first pattern (a quoted URL) already
    finds the same first match, so trying the list in order gives exactly
    the leftmost match of the first pattern. *)
Theorem m3u8_patterns_first_decides (content : string) :
  first_pattern_match m3u8_patterns content = search url_at content.
Proof.
  unfold m3u8_patterns. simpl.
  destruct (search url_at content) as [g|] eqn:E; [reflexivity|].
  assert (Hk : forall kw, search (kw_at kw) content = None).
  { intros kw. destruct (search (kw_at kw) content) as [g|] eqn:Ek; [|reflexivity].
    destruct (search_kw_url _ _ _ Ek) as [g' Hg']. congruence. }
  rewrite !Hk. reflexivity.
Qed.

Lemma first_pattern_match_shape content g :
  first_pattern_match m3u8_patterns content = Some g -> m3u8_url_shape g.
Proof.
  rewrite m3u8_patterns_first_decides. intros H.
  destruct (search_sound _ _ _ H) as (_ & suf & _ & Hs). exact (url_at_shape _ _ Hs).
Qed.

Lemma channel_result_shape (get : nat -> string -> option string)
  (channel_url g : string) :
  extract_m3u8_from_channel get channel_url = Some g -> m3u8_url_shape g.
Proof.
  unfold extract_m3u8_from_channel.
  destruct (get 15 channel_url) as [content|]; [|discriminate].
  destruct (first_pattern_match m3u8_patterns content) as [g'|] eqn:E.
  { intros H; injection H as <-. exact (first_pattern_match_shape _ _ E). }
  destruct (findall iframe_at content) as [|u us]; [discriminate|].
  generalize (firstn 2 (u :: us)). intros l. induction l as [|v l IH]; [discriminate|].
  destruct (get 10 v) as [text|]; [|exact IH].
  destruct (first_pattern_match m3u8_patterns text) as [g'|] eqn:E2; [|exact IH].
  intros H; injection H as <-. exact (first_pattern_match_shape _ _ E2).
Qed.

(** X8: a URL returned by [extract_m3u8_from_channel] starts with
    [http://] or [https://] (in any letter case), contains [.m3u8] (in any
    letter case) and holds no quote character; this holds whatever the
    network returns. *)
Theorem extract_m3u8_from_channel_shape (get : nat -> string -> option string)
  (channel_url g : string) :
  extract_m3u8_from_channel get channel_url = Some g -> m3u8_url_shape g.
Proof. apply channel_result_shape. Qed.

Lemma extract_m3u8_from_channel_shape_witness :
  extract_m3u8_from_channel (fun _ u => if u =? "https://p/1" then Some demo_page else None)
    "https://p/1" = Some "https://cdn.example/live/ch1.m3u8?token=ab" /\
  m3u8_url_shape "https://cdn.example/live/ch1.m3u8?token=ab".
Proof.
  split; [vm_compute; reflexivity|].
  apply (extract_m3u8_from_channel_shape
           (fun _ u => if u =? "https://p/1" then Some demo_page else None) "https://p/1").
  vm_compute. reflexivity.
Defined.

(** X9: [extract_m3u8_from_channel] depends on the network only through
    the channel page (requested with timeout 15) and, when that page has no
    match, the first two iframe sources found on it (timeout 10): two
    collaborators that agree on these requests give the same result. *)
Theorem extract_m3u8_from_channel_requests (get get' : nat -> string -> option string)
  (channel_url : string) :
  get' 15 channel_url = get 15 channel_url ->
  (forall content, get 15 channel_url = Some content ->
     search url_at content = None ->
     forall u, In u (firstn 2 (findall iframe_at content)) -> get' 10 u = get 10 u) ->
  extract_m3u8_from_channel get' channel_url = extract_m3u8_from_channel get channel_url.
Proof.
  intros H15 H10. unfold extract_m3u8_from_channel. rewrite H15.
  destruct (get 15 channel_url) as [content|] eqn:Ec; [|reflexivity].
  rewrite !m3u8_patterns_first_decides.
  destruct (search url_at content) as [g|] eqn:Es; [reflexivity|].
  specialize (H10 content eq_refl Es).
  destruct (findall iframe_at content) as [|u us]; [reflexivity|].
  revert H10. generalize (firstn 2 (u :: us)). intros l. induction l as [|v l IH]; intros Hl;
    [reflexivity|].
  rewrite (Hl v (or_introl eq_refl)).
  assert (Hl' : forall w, In w l -> get' 10 w = get 10 w) by (intros w Hw; apply Hl; right; exact Hw).
  destruct (get 10 v) as [text|]; [|exact (IH Hl')].
  destruct (first_pattern_match m3u8_patterns text); [reflexivity|exact (IH Hl')].
Qed.

Lemma extract_m3u8_from_channel_requests_witness :
  extract_m3u8_from_channel
    (fun _ u => if u =? "https://p/2" then Some demo_iframe_page
                else if u =? "http://e/c" then Some "src: 'HTTP://x/y.M3U8'"
                else if u =? "https://e/b" then None
                else Some (quoted "http://other/z.m3u8"))
    "https://p/2" =
  extract_m3u8_from_channel
    (fun _ u => if u =? "https://p/2" then Some demo_iframe_page
                else if u =? "http://e/c" then Some "src: 'HTTP://x/y.M3U8'" else None)
    "https://p/2".
Proof.
  apply extract_m3u8_from_channel_requests; [vm_compute; reflexivity|].
  intros content Hc Hs u Hu. vm_compute in Hc. injection Hc as <-.
  vm_compute in Hu. destruct Hu as [<-|[<-|[]]]; vm_compute; reflexivity.
Defined.

(** ** [process_events] *)

(** The Python values [response.json()] can produce; a [PDict] lists the
    items of a dict in insertion order. *)
#[warnings="-register-all"]
Inductive pyval :=
| PNone
| PBool (b : bool)
| PInt (z : Z)
| PFloat (q : Q)
| PStr (s : string)
| PList (l : list pyval)
| PDict (d : list (string * pyval)).

(** The exceptions [process_events] can raise on an unexpected shape. *)
Inductive script_exn := TypeError | AttributeError.

Inductive sresult (A : Type) : Type :=
| SOk (a : A)
| SErr (e : script_exn).
Arguments SOk {A} a.
Arguments SErr {A} e.

Definition sbind {A B} (m : sresult A) (f : A -> sresult B) : sresult B :=
  match m with
  | SOk a => f a
  | SErr e => SErr e
  end.

Notation "'let!' x ':=' m 'in' f" := (sbind m (fun x => f))
  (at level 200, x name, m at level 100, f at level 200).

(** [bool(v)] *)
Definition py_truthy (v : pyval) : bool :=
  match v with
  | PNone => false
  | PBool b => b
  | PInt z => negb (z =? 0)%Z
  | PFloat q => negb (Qeq_bool q 0)
  | PStr s => negb (s =? "")
  | PList l => match l with [] => false | _ => true end
  | PDict d => match d with [] => false | _ => true end
  end.

Fixpoint dict_lookup (k : string) (d : list (string * pyval)) : option pyval :=
  match d with
  | [] => None
  | (k', v) :: t => if k =? k' then Some v else dict_lookup k t
  end.

(** [d.get(k, default)] *)
Definition dict_get (d : list (string * pyval)) (k : string) (default : pyval) : pyval :=
  match dict_lookup k d with Some v => v | None => default end.

Fixpoint str_contains (p s : string) : bool :=
  String.prefix p s || match s with EmptyString => false | String _ r => str_contains p r end.

Fixpoint chars_of (s : string) : list pyval :=
  match s with
  | EmptyString => []
  | String c r => PStr (String c EmptyString) :: chars_of r
  end.

(** ['events' in v] *)
Definition py_in_events (v : pyval) : sresult bool :=
  match v with
  | PDict d => SOk (match dict_lookup "events" d with Some _ => true | None => false end)
  | PList l => SOk (existsb (fun x => match x with PStr s => s =? "events" | _ => false end) l)
  | PStr s => SOk (str_contains "events" s)
  | PNone | PBool _ | PInt _ | PFloat _ => SErr TypeError
  end.

(** [v['events']] once ['events' in v] holds. *)
Definition py_getitem_events (v : pyval) : sresult pyval :=
  match v with
  | PDict d => match dict_lookup "events" d with Some x => SOk x | None => SErr TypeError end
  | _ => SErr TypeError
  end.

(** [iter(v)]: a list gives its elements, a string its characters, a dict
    its keys; [len(v)] accepts and rejects the same values. *)
Definition py_iter (v : pyval) : sresult (list pyval) :=
  match v with
  | PList l => SOk l
  | PStr s => SOk (chars_of s)
  | PDict d => SOk (List.map (fun kv => PStr (fst kv)) d)
  | PNone | PBool _ | PInt _ | PFloat _ => SErr TypeError
  end.

Fixpoint map_s {A B} (f : A -> sresult B) (l : list A) : sresult (list B) :=
  match l with
  | [] => SOk []
  | x :: t => let! y := f x in let! ys := map_s f t in SOk (y :: ys)
  end.

Record ChannelStream := {
  cs_channel_url : pyval;
  cs_m3u8_url : option string
}.

(** The [event_info] dictionary; [playback_headers] is a constant and
    [last_updated] the clock, both left out. *)
Record EventInfo := {
  ei_date : string;
  ei_unix_timestamp : pyval;
  ei_sport : pyval;
  ei_tournament : pyval;
  ei_match : pyval;
  ei_streams : list ChannelStream
}.

Section ProcessEvents.

Variable get : nat -> string -> option string.

(** [extract_m3u8_from_channel(channel_url)] on any value: [requests]
    turns a non-string URL into its [str()], which has no URL scheme, and
    raises, so the function returns [None]. *)
Definition extract_value (channel_url : pyval) : option string :=
  match channel_url with
  | PStr u => extract_m3u8_from_channel get u
  | _ => None
  end.

(** One channel of the [for idx, channel_url in enumerate(channels)] loop. *)
Definition channel_stream (channel_url : pyval) : ChannelStream :=
  match extract_value channel_url with
  | Some u => if truthy u then {| cs_channel_url := channel_url; cs_m3u8_url := Some u |}
              else {| cs_channel_url := channel_url; cs_m3u8_url := None |}
  | None => {| cs_channel_url := channel_url; cs_m3u8_url := None |}
  end.

(** One event of the inner loop: [None] for [continue]. *)
Definition process_event (date : string) (event : pyval) : sresult (option EventInfo) :=
  match event with
  | PDict e =>
      let channels := dict_get e "channels" (PList []) in
      if negb (py_truthy channels) then SOk None
      else
        let! chs := py_iter channels in
        SOk (Some {| ei_date := date;
                     ei_unix_timestamp := dict_get e "unix_timestamp" (PInt 0);
                     ei_sport := dict_get e "sport" (PStr "Unknown");
                     ei_tournament := dict_get e "tournament" (PStr "Unknown");
                     ei_match := dict_get e "match" (PStr "Unknown");
                     ei_streams := List.map channel_stream chs |})
  | _ => SOk None
  end.

Fixpoint process_list (date : string) (events_list : list pyval) : sresult (list EventInfo) :=
  match events_list with
  | [] => SOk []
  | ev :: t =>
      let! o := process_event date ev in
      let! rest := process_list date t in
      SOk (match o with Some ei => ei :: rest | None => rest end)
  end.

Fixpoint process_dates (items : list (string * pyval)) : sresult (list EventInfo) :=
  match items with
  | [] => SOk []
  | (date, events_list) :: t =>
      let! evs := py_iter events_list in
      let! out := process_list date evs in
      let! rest := process_dates t in
      SOk (out ++ rest)
  end.

(** [process_events] *)
Definition process_events (events_data : pyval) : sresult (list EventInfo) :=
  if negb (py_truthy events_data) then SOk []
  else
    let! has := py_in_events events_data in
    if negb has then SOk []
    else
      let! events_by_date := py_getitem_events events_data in
      match events_by_date with
      | PDict items => process_dates items
      | _ => SErr AttributeError
      end.

End ProcessEvents.

(** The counters of [main] in [extract_m3u8.py]: [m3u8_found],
    [total_channels] and the success rate in percent. *)
Definition main_statistics (processed : list EventInfo) : nat * nat * Q :=
  let streams := flat_map ei_streams processed in
  let total_channels := List.length streams in
  let m3u8_found :=
    List.length (filter (fun s => match cs_m3u8_url s with
                                  | Some u => truthy u
                                  | None => false
                                  end) streams) in
  (m3u8_found, total_channels,
   if Nat.ltb 0 total_channels
   then (inject_Z (Z.of_nat m3u8_found) / inject_Z (Z.of_nat total_channels) * inject_Z 100)%Q
   else 0%Q).

Definition demo_api : pyval :=
  PDict [("events", PDict [("2025-01-01",
    PList [PDict [("sport", PStr "Football"); ("match", PStr "A - B");
                  ("channels", PList [PStr "https://p/1"; PStr "https://p/9"])];
           PDict [("sport", PStr "Tennis"); ("channels", PList [])];
           PStr "note"])])].

Definition demo_get (_ : nat) (u : string) : option string :=
  if u =? "https://p/1" then Some demo_page else None.

Example process_events_ex :
  process_events demo_get demo_api = SOk
    [{| ei_date := "2025-01-01"; ei_unix_timestamp := PInt 0; ei_sport := PStr "Football";
        ei_tournament := PStr "Unknown"; ei_match := PStr "A - B";
        ei_streams := [{| cs_channel_url := PStr "https://p/1";
                          cs_m3u8_url := Some "https://cdn.example/live/ch1.m3u8?token=ab" |};
                       {| cs_channel_url := PStr "https://p/9"; cs_m3u8_url := None |}] |}].
Proof. vm_compute. reflexivity. Qed.

(** [save_results]: the STATISTICS block of the summary file, in its
    order: Unique Events, Total Channels, Individual Streams, Media
    Segments, Other Events (a Python int subtraction). *)
Definition save_results_statistics (m : Model) : Z * Z * Z * Z * Z :=
  let total_channels := Z.of_nat (sum_channels (grouped_events m)) in
  (Z.of_nat (List.length (grouped_events m)), total_channels,
   Z.of_nat (List.length (streams m)), Z.of_nat (List.length (segments m)),
   (Z.of_nat (List.length (events m)) - total_channels)%Z).

Lemma sbind_ok {A B} (m : sresult A) (f : A -> sresult B) (b : B) :
  sbind m f = SOk b -> exists a, m = SOk a /\ f a = SOk b.
Proof. destruct m; simpl; [eauto|discriminate]. Qed.

Lemma py_iter_nonempty v l : py_truthy v = true -> py_iter v = SOk l -> l <> [].
Proof.
  destruct v as [| | | |s|l0|d]; simpl; try discriminate; intros Ht Hi; injection Hi as <-.
  - destruct s; simpl in *; discriminate.
  - destruct l0; simpl in *; discriminate.
  - destruct d; simpl in *; discriminate.
Qed.

(** A stream entry's [m3u8_url]: [None], or a URL of the shape the
    patterns accept. *)
Definition stream_found_ok (cs : ChannelStream) : Prop :=
  match cs_m3u8_url cs with Some u => m3u8_url_shape u | None => True end.

Lemma channel_stream_ok get v : stream_found_ok (channel_stream get v).
Proof.
  unfold channel_stream, stream_found_ok.
  destruct (extract_value get v) as [u|] eqn:E; [destruct (truthy u)|]; simpl; auto.
  unfold extract_value in E. destruct v; try discriminate.
  exact (channel_result_shape get _ _ E).
Qed.

Lemma channel_stream_url get v : cs_channel_url (channel_stream get v) = v.
Proof.
  unfold channel_stream. destruct (extract_value get v); [destruct (truthy s)|]; reflexivity.
Qed.

Definition event_ok (ei : EventInfo) : Prop :=
  ei_streams ei <> [] /\ Forall stream_found_ok (ei_streams ei).

Lemma process_event_ok get date ev o :
  process_event get date ev = SOk o ->
  match o with Some ei => event_ok ei | None => True end.
Proof.
  destruct ev as [| | | | | |e]; cbn [process_event];
    try (intros H; injection H as <-; exact I).
  destruct (py_truthy (dict_get e "channels" (PList []))) eqn:Et; cbn [negb];
    [|intros H; injection H as <-; exact I].
  intros H. destruct (sbind_ok _ _ _ H) as (chs & Hi & Hs). injection Hs as <-.
  split; simpl.
  - intros Hm. apply map_eq_nil in Hm. exact (py_iter_nonempty _ _ Et Hi Hm).
  - apply Forall_forall. intros x Hx. apply in_map_iff in Hx.
    destruct Hx as (v & <- & _). apply channel_stream_ok.
Qed.

Lemma process_list_ok get date l out :
  process_list get date l = SOk out -> Forall event_ok out.
Proof.
  revert out. induction l as [|ev l IH]; simpl; intros out H.
  - injection H as <-. constructor.
  - destruct (sbind_ok _ _ _ H) as (o & Ho & H1).
    destruct (sbind_ok _ _ _ H1) as (rest & Hr & H2). injection H2 as <-.
    specialize (IH _ Hr). pose proof (process_event_ok _ _ _ _ Ho) as Hev.
    destruct o; [constructor|]; assumption.
Qed.

Lemma process_dates_ok get items out :
  process_dates get items = SOk out -> Forall event_ok out.
Proof.
  revert out. induction items as [|[date v] items IH]; simpl; intros out H.
  - injection H as <-. constructor.
  - destruct (sbind_ok _ _ _ H) as (evs & _ & H1).
    destruct (sbind_ok _ _ _ H1) as (o & Ho & H2).
    destruct (sbind_ok _ _ _ H2) as (rest & Hr & H3). injection H3 as <-.
    apply Forall_app. split; [exact (process_list_ok _ _ _ _ Ho) | exact (IH _ Hr)].
Qed.

(** The channel list of an event when it is a list, as [process_events]
    walks it. *)
Definition event_channels (ev : pyval) : list pyval :=
  match ev with
  | PDict e => match dict_get e "channels" (PList []) with PList l => l | _ => [] end
  | _ => []
  end.

Definition day_events (v : pyval) : list pyval :=
  match v with PList l => l | _ => [] end.

Definition nonempty {A} (l : list A) : bool := match l with [] => false | _ => true end.

(** An event whose [channels] is a list or a falsy value. *)
Definition channels_well_shaped (ev : pyval) : Prop :=
  match ev with
  | PDict e =>
      match dict_get e "channels" (PList []) with
      | PList _ => True
      | v => py_truthy v = false
      end
  | _ => True
  end.

Definition events_well_shaped (items : list (string * pyval)) : Prop :=
  Forall (fun kv => (exists l, snd kv = PList l) /\
                    Forall channels_well_shaped (day_events (snd kv))) items.

Lemma process_event_shaped get date ev :
  channels_well_shaped ev ->
  exists o, process_event get date ev = SOk o /\
    match o with
    | Some ei => ei_date ei = date /\ event_channels ev <> [] /\
                 List.map cs_channel_url (ei_streams ei) = event_channels ev
    | None => event_channels ev = []
    end.
Proof.
  destruct ev as [| | | | | |e]; cbn [process_event]; intros Hw;
    try (eexists; split; [reflexivity|reflexivity]).
  unfold channels_well_shaped, event_channels in *.
  destruct (dict_get e "channels" (PList [])) as [| | | | |l|] eqn:Ec;
    try (match type of Hw with _ = false => rewrite Hw end;
         eexists; split; [reflexivity|reflexivity]).
  destruct l as [|c l]; [eexists; split; reflexivity|].
  eexists. split; [reflexivity|]. simpl. split; [reflexivity|]. split; [discriminate|].
  rewrite channel_stream_url, map_map.
  f_equal. erewrite map_ext; [apply map_id|]. intros v. apply channel_stream_url.
Qed.

Lemma process_list_shaped get date l :
  Forall channels_well_shaped l ->
  exists out, process_list get date l = SOk out /\
    List.map (fun ei => (ei_date ei, List.map cs_channel_url (ei_streams ei))) out =
    List.map (fun chs => (date, chs)) (filter nonempty (List.map event_channels l)).
Proof.
  induction 1 as [|ev l Hev Hl IH]; [eexists; split; reflexivity|].
  destruct IH as (rest & Hr & Hm).
  destruct (process_event_shaped get date ev Hev) as (o & Ho & Hs).
  exists (match o with Some ei => ei :: rest | None => rest end). split.
  - cbn [process_list]. rewrite Ho. cbn [sbind]. rewrite Hr. reflexivity.
  - simpl. destruct o as [ei|].
    + destruct Hs as (Hd & Hne & Hc). destruct (event_channels ev) eqn:E; [congruence|].
      simpl. rewrite Hd, Hc, Hm. reflexivity.
    + rewrite Hs. exact Hm.
Qed.

Lemma process_dates_shaped get items :
  events_well_shaped items ->
  exists out, process_dates get items = SOk out /\
    List.map (fun ei => (ei_date ei, List.map cs_channel_url (ei_streams ei))) out =
    flat_map (fun kv => List.map (fun chs => (fst kv, chs))
                          (filter nonempty (List.map event_channels (day_events (snd kv)))))
             items.
Proof.
  induction 1 as [|[date v] items [[l Hv] Hw] _ IH]; [eexists; split; reflexivity|].
  simpl in Hv, Hw. subst v. destruct IH as (rest & Hr & Hm).
  destruct (process_list_shaped get date l Hw) as (out & Ho & Hom).
  exists (out ++ rest). split.
  - cbn [process_dates py_iter sbind]. rewrite Ho. cbn [sbind]. rewrite Hr. reflexivity.
  - simpl. rewrite map_app, Hom, Hm. reflexivity.
Qed.

Lemma filter_partition_length {A} (f : A -> bool) (l : list A) :
  List.length (filter f l) + List.length (filter (fun x => negb (f x)) l) = List.length l.
Proof. induction l as [|x l IH]; simpl; [reflexivity|]. destruct (f x); simpl; lia. Qed.

Definition groups_nonempty (g : list (string * EventGroup)) : Prop :=
  Forall (fun kv => g_channels (snd kv) <> []) g.

Lemma append_channel_nonempty k r g :
  groups_nonempty g -> groups_nonempty (append_channel k r g).
Proof.
  induction 1 as [|[k' v] g Hv Hg IH]; simpl; [constructor|].
  destruct (k =? k'); constructor; simpl; auto.
  destruct (g_channels v); discriminate.
Qed.

Lemma append_channel_fresh k r g v :
  lookup k g = None -> append_channel k r (g ++ [(k, v)]) = g ++ [(k, add_ref r v)].
Proof.
  induction g as [|[k' v'] g IH]; simpl.
  - rewrite String.eqb_refl. reflexivity.
  - destruct (k =? k'); [discriminate|]. intros H. rewrite (IH H). reflexivity.
Qed.

Lemma group_entry_nonempty ev r g :
  groups_nonempty g -> groups_nonempty (group_entry ev r g).
Proof.
  intros Hg. unfold group_entry.
  destruct (lookup _ g) eqn:E; [apply append_channel_nonempty; exact Hg|].
  rewrite append_channel_fresh by exact E.
  apply Forall_app. split; [exact Hg|]. constructor; [simpl; discriminate|constructor].
Qed.

Lemma scan_groups_nonempty urljoin base ls i m m' :
  groups_nonempty (grouped_events m) ->
  scan urljoin base i ls m = Ok m' -> groups_nonempty (grouped_events m').
Proof.
  apply (scan_invariant urljoin base (fun m => groups_nonempty (grouped_events m))).
  - intros m0 md H. exact H.
  - intros m0 e _ H. exact H.
  - intros m0 info u H. exact H.
  - intros m0 info nx H. unfold add_extinf.
    destruct (title info) as [t|]; [destruct (is_event_entry t)|]; simpl; try exact H.
    apply group_entry_nonempty. exact H.
Qed.

Lemma groups_nonempty_length g :
  groups_nonempty g -> List.length g <= sum_channels g.
Proof.
  induction 1 as [|[k v] g Hv _ IH]; simpl; [lia|]. simpl in Hv.
  destruct (g_channels v); [congruence|]. simpl. lia.
Qed.

(** X10: every event [process_events] returns has at least one entry in
    [streams], and the [m3u8_url] of each entry is [None] or a URL of the
    shape the patterns accept; this holds whatever the API and the network
    return. *)
Theorem process_events_streams (get : nat -> string -> option string)
  (events_data : pyval) (out : list EventInfo) :
  process_events get events_data = SOk out ->
  Forall (fun ei => ei_streams ei <> [] /\ Forall stream_found_ok (ei_streams ei)) out.
Proof.
  unfold process_events. destruct (negb (py_truthy events_data));
    [intros H; injection H as <-; constructor|].
  intros H. destruct (sbind_ok _ _ _ H) as (has & _ & H1). destruct (negb has);
    [injection H1 as <-; constructor|].
  destruct (sbind_ok _ _ _ H1) as (ebd & _ & H2).
  destruct ebd; try discriminate. exact (process_dates_ok _ _ _ H2).
Qed.

Lemma process_events_streams_witness :
  process_events demo_get demo_api = SOk
    [{| ei_date := "2025-01-01"; ei_unix_timestamp := PInt 0; ei_sport := PStr "Football";
        ei_tournament := PStr "Unknown"; ei_match := PStr "A - B";
        ei_streams := [{| cs_channel_url := PStr "https://p/1";
                          cs_m3u8_url := Some "https://cdn.example/live/ch1.m3u8?token=ab" |};
                       {| cs_channel_url := PStr "https://p/9"; cs_m3u8_url := None |}] |}] /\
  Forall (fun ei => ei_streams ei <> [] /\ Forall stream_found_ok (ei_streams ei))
    [{| ei_date := "2025-01-01"; ei_unix_timestamp := PInt 0; ei_sport := PStr "Football";
        ei_tournament := PStr "Unknown"; ei_match := PStr "A - B";
        ei_streams := [{| cs_channel_url := PStr "https://p/1";
                          cs_m3u8_url := Some "https://cdn.example/live/ch1.m3u8?token=ab" |};
                       {| cs_channel_url := PStr "https://p/9"; cs_m3u8_url := None |}] |}].
Proof.
  split; [vm_compute; reflexivity|].
  apply (process_events_streams demo_get demo_api). vm_compute. reflexivity.
Defined.

(** X11: when the response is a dict whose [events] is a dict of lists, and
    the [channels] of every dict event is a list or a falsy value,
    [process_events] raises nothing, and its result holds one event per dict
    event with a non-empty channel list, in the order of the dates and of
    the lists, each with its date and one stream entry per channel URL, in
    order; non-dict events and events without channels are skipped. *)
Theorem process_events_well_shaped (get : nat -> string -> option string)
  (d items : list (string * pyval)) :
  dict_lookup "events" d = Some (PDict items) ->
  events_well_shaped items ->
  exists out, process_events get (PDict d) = SOk out /\
    List.map (fun ei => (ei_date ei, List.map cs_channel_url (ei_streams ei))) out =
    flat_map (fun kv => List.map (fun chs => (fst kv, chs))
                          (filter nonempty (List.map event_channels (day_events (snd kv)))))
             items.
Proof.
  intros Hd Hw. unfold process_events, py_in_events, py_getitem_events.
  destruct d as [|kv d]; [discriminate|]. cbn [py_truthy negb].
  rewrite Hd. cbn [sbind negb]. exact (process_dates_shaped get items Hw).
Qed.

Lemma process_events_well_shaped_witness :
  exists out, process_events demo_get demo_api = SOk out /\
    List.map (fun ei => (ei_date ei, List.map cs_channel_url (ei_streams ei))) out =
    [("2025-01-01", [PStr "https://p/1"; PStr "https://p/9"])].
Proof.
  destruct (process_events_well_shaped demo_get
    [("events", PDict [("2025-01-01",
      PList [PDict [("sport", PStr "Football"); ("match", PStr "A - B");
                    ("channels", PList [PStr "https://p/1"; PStr "https://p/9"])];
             PDict [("sport", PStr "Tennis"); ("channels", PList [])];
             PStr "note"])])]
    [("2025-01-01",
      PList [PDict [("sport", PStr "Football"); ("match", PStr "A - B");
                    ("channels", PList [PStr "https://p/1"; PStr "https://p/9"])];
             PDict [("sport", PStr "Tennis"); ("channels", PList [])];
             PStr "note"])]) as (out & Ho & Hm).
  - reflexivity.
  - constructor; [|constructor]. split; [eexists; reflexivity|].
    repeat constructor.
  - exists out. split; [exact Ho|]. rewrite Hm. reflexivity.
Defined.

(** X12: the counters [main] prints after [process_events] satisfy
    [m3u8_found <= total_channels], and the success rate lies between 0 and
    100 percent (it is 0 when no channel was checked: no division by zero). *)
Theorem main_statistics_bounds (processed : list EventInfo) :
  match main_statistics processed with
  | (found, total, rate) =>
      found <= total /\ (0 <= rate)%Q /\ (rate <= 100)%Q /\ (total = 0 -> rate = 0%Q)
  end.
Proof.
  unfold main_statistics.
  set (ss := flat_map ei_streams processed).
  set (found := List.length (filter _ ss)).
  assert (Hle : found <= List.length ss) by apply filter_length_le.
  split; [exact Hle|].
  destruct (Nat.ltb 0 (List.length ss)) eqn:Hlt;
    [|split; [discriminate|split; [discriminate|reflexivity]]].
  apply Nat.ltb_lt in Hlt.
  assert (Hpos : (0 < inject_Z (Z.of_nat (List.length ss)))%Q)
    by (change 0%Q with (inject_Z 0); rewrite <- Zlt_Qlt; lia).
  split; [|split; [|intros H0; lia]].
  - apply Qmult_le_0_compat; [|discriminate].
    apply Qle_shift_div_l; [exact Hpos|].
    rewrite Qmult_0_l. change 0%Q with (inject_Z 0). rewrite <- Zle_Qle. lia.
  - apply Qle_trans with (1 * inject_Z 100)%Q; [|discriminate].
    apply Qmult_le_compat_r; [|discriminate].
    apply Qle_shift_div_r; [exact Hpos|].
    rewrite Qmult_1_l. rewrite <- Zle_Qle. lia.
Qed.

(** X13: for a result [extract_all] returns, the STATISTICS block
    [save_results] writes has Unique Events at most Total Channels (every
    group holds at least one channel), and Other Events equal to the number
    of entries of [events] that are not channel entries, so it is never
    negative. *)
Theorem save_results_statistics_extract_all (urljoin : string -> string -> string)
  (fetch : string -> option string) (url : string) (r : Model) :
  extract_all urljoin fetch url = Ok (inr r) ->
  match save_results_statistics r with
  | (unique, total, _, _, other) =>
      (unique <= total)%Z /\
      other = Z.of_nat (List.length (filter (fun e => negb (is_channel e)) (events r)))
  end.
Proof.
  intros H.
  assert (Hp : exists r0, parse_m3u8 urljoin (match fetch url with Some c => c | None => "" end) url = Ok r0 /\
                          grouped_events r = grouped_events r0 /\ events r = events r0).
  { unfold extract_all in H. destruct (fetch url) as [c|]; [|discriminate].
    destruct (truthy c); [|discriminate].
    destruct (bind_ok _ _ _ H) as (r0 & Hr0 & H1). exists r0. split; [exact Hr0|].
    destruct (streams r0); [injection H1 as <-; split; reflexivity|].
    destruct (bind_ok _ _ _ H1) as (ss & _ & H2). injection H2 as <-.
    split; reflexivity. }
  destruct Hp as (r0 & Hr0 & Hg & He).
  unfold parse_m3u8 in Hr0.
  pose proof (scan_channel_count _ _ _ _ (empty_model url) _ eq_refl Hr0) as Hc.
  pose proof (scan_groups_nonempty _ _ _ _ (empty_model url) _ (Forall_nil _) Hr0) as Hn.
  unfold save_results_statistics. rewrite Hg, He. split.
  - apply Nat2Z.inj_le. exact (groups_nonempty_length _ Hn).
  - rewrite Hc. unfold count_channel.
    pose proof (filter_partition_length is_channel (events r0)). lia.
Qed.

Lemma save_results_statistics_extract_all_witness :
  extract_all py_urljoin (fun u => if u =? demo_base then Some demo_grouped else None)
    demo_base <> Ok (inl "Failed to fetch playlist") /\
  exists r, extract_all py_urljoin (fun u => if u =? demo_base then Some demo_grouped else None)
              demo_base = Ok (inr r) /\
  match save_results_statistics r with
  | (unique, total, _, _, other) =>
      (unique <= total)%Z /\
      other = Z.of_nat (List.length (filter (fun e => negb (is_channel e)) (events r)))
  end.
Proof.
  split; [vm_compute; discriminate|].
  eexists. split; [vm_compute; reflexivity|].
  apply (save_results_statistics_extract_all py_urljoin
           (fun u => if u =? demo_base then Some demo_grouped else None) demo_base).
  vm_compute. reflexivity.
Defined.

Lemma lstrip_rstrip_lstrip s : lstrip (rstrip (lstrip s)) = rstrip (lstrip s).
Proof.
  induction s as [|c r IH]; [reflexivity|]. simpl.
  destruct (is_space c) eqn:Ec; [exact IH|]. simpl. rewrite Ec. simpl. rewrite Ec. reflexivity.
Qed.

Lemma rstrip_idem s : rstrip (rstrip s) = rstrip s.
Proof.
  induction s as [|c r IH]; [reflexivity|]. simpl.
  destruct (is_space c && (rstrip r =? "")) eqn:E; [reflexivity|].
  simpl. rewrite IH, E. reflexivity.
Qed.

Lemma strip_idem s : strip (strip s) = strip s.
Proof. unfold strip. rewrite lstrip_rstrip_lstrip. apply rstrip_idem. Qed.

Lemma quoted_attr_at_sound key s v :
  quoted_attr_at key s = Some v ->
  v <> "" /\ all_chars (fun c => negb (Ascii.eqb c dq)) v = true.
Proof.
  unfold quoted_attr_at. destruct (strip_prefix _ s) as [r|]; [|discriminate].
  destruct (span _ r) as [a b] eqn:E.
  destruct b as [|q b]; [discriminate|].
  destruct (negb (a =? "") && Ascii.eqb q dq) eqn:Ea; [|discriminate].
  intros H; injection H as <-. apply andb_prop in Ea as [Ha _].
  apply negb_true_iff, String.eqb_neq in Ha. split; [exact Ha|].
  apply (span_sound _ _ _ _ E).
Qed.

(** X14: on a line [parse_extinf] accepts, a title it returns is non-empty
    and has no leading or trailing whitespace (stripping it again changes
    nothing), and a [tvg-logo] or [group-title] it returns is non-empty and
    holds no double quote. *)
Theorem parse_extinf_fields (line : string) (info : ExtInf) :
  parse_extinf line = Ok info ->
  (forall t, title info = Some t -> t <> "" /\ strip t = t) /\
  (forall v, logo info = Some v \/ group_title info = Some v ->
             v <> "" /\ all_chars (fun c => negb (Ascii.eqb c dq)) v = true).
Proof.
  unfold parse_extinf. intros H. destruct (bind_ok _ _ _ H) as (dur & _ & H1).
  injection H1 as <-. simpl. split.
  - intros t. destruct (split_once "," line) as [[_ after]|]; [|discriminate].
    destruct (strip after =? "") eqn:E; [discriminate|].
    intros Ht; injection Ht as <-. apply String.eqb_neq in E.
    split; [exact E|apply strip_idem].
  - intros v [Hv|Hv]; destruct (search_sound _ _ _ Hv) as (_ & suf & _ & Hs);
      exact (quoted_attr_at_sound _ _ _ Hs).
Qed.

Lemma parse_extinf_fields_witness :
  parse_extinf ("#EXTINF:-1 tvg-logo=" ++ quoted "l.png" ++ ", 01:00PM| A vs B ")%string =
    Ok {| duration := None; logo := Some "l.png"; group_title := None;
          title := Some "01:00PM| A vs B" |} /\
  (forall t, title {| duration := None; logo := Some "l.png"; group_title := None;
                      title := Some "01:00PM| A vs B" |} = Some t -> t <> "" /\ strip t = t) /\
  (forall v, logo {| duration := None; logo := Some "l.png"; group_title := None;
                     title := Some "01:00PM| A vs B" |} = Some v \/
             group_title {| duration := None; logo := Some "l.png"; group_title := None;
                            title := Some "01:00PM| A vs B" |} = Some v ->
             v <> "" /\ all_chars (fun c => negb (Ascii.eqb c dq)) v = true).
Proof.
  split; [vm_compute; reflexivity|].
  apply (parse_extinf_fields ("#EXTINF:-1 tvg-logo=" ++ quoted "l.png" ++ ", 01:00PM| A vs B ")%string).
  vm_compute. reflexivity.
Defined.
